(** * Word Race: the React client (src/client/src/App.jsx) and the
      server-side contracts it talks to.

    JavaScript strings are sequences of UTF-16 code units; a code unit is
    an [N].  React state is a record, each socket handler and each DOM
    handler is a function from the state to the new state and the list of
    events it emits on the socket. *)

From Stdlib Require Import String Ascii.
From stdpp Require Import base numbers list option gmap.

Local Open Scope N_scope.

(** ** JavaScript strings *)

Abbreviation jsstring := (list N).

(** A string literal of the source, as its code units. *)
Definition js (s : string) : jsstring :=
  N_of_ascii <$> list_ascii_of_string s.

Module JS.

(** The character class [a-zA-Z] of the input filter. *)
Definition is_upper (c : N) : bool := (65 <=? c) && (c <=? 90).
Definition is_lower (c : N) : bool := (97 <=? c) && (c <=? 122).
Definition is_letter (c : N) : bool := is_lower c || is_upper c.

(** [s.replace(/[^a-zA-Z]/g, '')]: without the u flag the pattern is
    matched code unit by code unit. *)
Definition replace_non_letters (s : jsstring) : jsstring :=
  List.filter is_letter s.

(** [s.slice(0, n)] for a non-negative literal [n]. *)
Definition slice0 (n : nat) (s : jsstring) : jsstring := take n s.

(** [toLowerCase] and [toUpperCase] on the ASCII range: on a string whose
    code units are all below 128 they are String.prototype.toLowerCase and
    String.prototype.toUpperCase. Code units outside the range are kept
    as they are, which is not what the platform does with them; a property
    that depends on the case mapping is stated for ASCII strings, or for
    an arbitrary mapping. *)
Definition lower_unit (c : N) : N := if is_upper c then c + 32 else c.
Definition upper_unit (c : N) : N := if is_lower c then c - 32 else c.
Definition toLowerCase (s : jsstring) : jsstring := lower_unit <$> s.
Definition toUpperCase (s : jsstring) : jsstring := upper_unit <$> s.

(** [s.padEnd(n, ' ')]. *)
Definition padEnd (n : nat) (s : jsstring) : jsstring :=
  s ++ replicate (n - length s) 32.

(** [s.split('')]: one string per code unit. *)
Definition split_units (s : jsstring) : list jsstring :=
  (fun c => [c]) <$> s.

(** WhiteSpace and LineTerminator code units, the ones [trim] strips. *)
Definition is_space (c : N) : bool :=
  (9 <=? c) && (c <=? 13) || (c =? 32) || (c =? 160) || (c =? 5760)
  || (8192 <=? c) && (c <=? 8202) || (c =? 8232) || (c =? 8233)
  || (c =? 8239) || (c =? 8287) || (c =? 12288) || (c =? 65279).

Fixpoint trimStart (s : jsstring) : jsstring :=
  match s with
  | c :: s' => if is_space c then trimStart s' else s
  | [] => []
  end.

Definition trim (s : jsstring) : jsstring :=
  reverse (trimStart (reverse (trimStart s))).

(** A string of ASCII code units. *)
Definition is_ascii (s : jsstring) : Prop := Forall (fun c => c < 128) s.

(** Truthiness of a value that is a string or absent: [undefined], [null]
    and the empty string are falsy. *)
Definition truthy (v : option jsstring) : bool :=
  match v with
  | Some (_ :: _) => true
  | _ => false
  end.

(** [v || d] on such a value. *)
Definition or_default (v : option jsstring) (d : jsstring) : jsstring :=
  match v with
  | Some (c :: s) => c :: s
  | _ => d
  end.

End JS.

(** ** The client: state of the [App] component *)

Definition WORD_LEN : nat := 5.
Definition MAX_GUESSES : nat := 6.

(** A board row, [{ guess, fb }]. *)
Record Entry := { guess : jsstring; fb : list jsstring }.

(** The Socket.IO client object; [socket_id] is its [id]. *)
Record Socket := { socket_id : jsstring }.

(** The [useState] and [useRef] cells of [App]. *)
Record State := {
  roomId : jsstring;
  socket : option Socket;
  isPlayer : bool;
  isPlayerRef : bool;
  board : list Entry;
  otherBoard : list Entry;
  input : jsstring;
  otherTyping : Z;
  status : jsstring;
  opponentJoined : bool;
  spectators : Z
}.

Definition setRoomId (v : jsstring) (st : State) : State :=
  {| roomId := v; socket := socket st; isPlayer := isPlayer st;
     isPlayerRef := isPlayerRef st; board := board st;
     otherBoard := otherBoard st; input := input st;
     otherTyping := otherTyping st; status := status st;
     opponentJoined := opponentJoined st; spectators := spectators st |}.

Definition setSocket (v : option Socket) (st : State) : State :=
  {| roomId := roomId st; socket := v; isPlayer := isPlayer st;
     isPlayerRef := isPlayerRef st; board := board st;
     otherBoard := otherBoard st; input := input st;
     otherTyping := otherTyping st; status := status st;
     opponentJoined := opponentJoined st; spectators := spectators st |}.

Definition setIsPlayer (v : bool) (st : State) : State :=
  {| roomId := roomId st; socket := socket st; isPlayer := v;
     isPlayerRef := isPlayerRef st; board := board st;
     otherBoard := otherBoard st; input := input st;
     otherTyping := otherTyping st; status := status st;
     opponentJoined := opponentJoined st; spectators := spectators st |}.

Definition setIsPlayerRef (v : bool) (st : State) : State :=
  {| roomId := roomId st; socket := socket st; isPlayer := isPlayer st;
     isPlayerRef := v; board := board st;
     otherBoard := otherBoard st; input := input st;
     otherTyping := otherTyping st; status := status st;
     opponentJoined := opponentJoined st; spectators := spectators st |}.

Definition setBoard (v : list Entry) (st : State) : State :=
  {| roomId := roomId st; socket := socket st; isPlayer := isPlayer st;
     isPlayerRef := isPlayerRef st; board := v;
     otherBoard := otherBoard st; input := input st;
     otherTyping := otherTyping st; status := status st;
     opponentJoined := opponentJoined st; spectators := spectators st |}.

Definition setOtherBoard (v : list Entry) (st : State) : State :=
  {| roomId := roomId st; socket := socket st; isPlayer := isPlayer st;
     isPlayerRef := isPlayerRef st; board := board st;
     otherBoard := v; input := input st;
     otherTyping := otherTyping st; status := status st;
     opponentJoined := opponentJoined st; spectators := spectators st |}.

Definition setInput (v : jsstring) (st : State) : State :=
  {| roomId := roomId st; socket := socket st; isPlayer := isPlayer st;
     isPlayerRef := isPlayerRef st; board := board st;
     otherBoard := otherBoard st; input := v;
     otherTyping := otherTyping st; status := status st;
     opponentJoined := opponentJoined st; spectators := spectators st |}.

Definition setOtherTyping (v : Z) (st : State) : State :=
  {| roomId := roomId st; socket := socket st; isPlayer := isPlayer st;
     isPlayerRef := isPlayerRef st; board := board st;
     otherBoard := otherBoard st; input := input st;
     otherTyping := v; status := status st;
     opponentJoined := opponentJoined st; spectators := spectators st |}.

Definition setStatus (v : jsstring) (st : State) : State :=
  {| roomId := roomId st; socket := socket st; isPlayer := isPlayer st;
     isPlayerRef := isPlayerRef st; board := board st;
     otherBoard := otherBoard st; input := input st;
     otherTyping := otherTyping st; status := v;
     opponentJoined := opponentJoined st; spectators := spectators st |}.

Definition setOpponentJoined (v : bool) (st : State) : State :=
  {| roomId := roomId st; socket := socket st; isPlayer := isPlayer st;
     isPlayerRef := isPlayerRef st; board := board st;
     otherBoard := otherBoard st; input := input st;
     otherTyping := otherTyping st; status := status st;
     opponentJoined := v; spectators := spectators st |}.

Definition setSpectators (v : Z) (st : State) : State :=
  {| roomId := roomId st; socket := socket st; isPlayer := isPlayer st;
     isPlayerRef := isPlayerRef st; board := board st;
     otherBoard := otherBoard st; input := input st;
     otherTyping := otherTyping st; status := status st;
     opponentJoined := opponentJoined st; spectators := v |}.

(** [Array.from({ length: MAX_GUESSES }, () => ({ guess: '', fb: [] }))] *)
Definition emptyBoard : list Entry :=
  replicate MAX_GUESSES {| guess := []; fb := [] |}.

(** ** The page URL *)

(** The query string as [URLSearchParams] holds it: the decoded name/value
    pairs in the order of the URL; [get] returns the first value of a name,
    or null. *)
Abbreviation SearchParams := (list (jsstring * jsstring)).

Fixpoint URLSearchParams_get (params : SearchParams) (name : jsstring)
  : option jsstring :=
  match params with
  | [] => None
  | (k, v) :: rest =>
      if bool_decide (k = name) then Some v else URLSearchParams_get rest name
  end.

(** [new URLSearchParams(window.location.search).get('room') || 'lobby'] *)
Definition initial_roomId (params : SearchParams) : jsstring :=
  JS.or_default (URLSearchParams_get params (js "room")) (js "lobby").

(** The state of the first render. *)
Definition App_initial (params : SearchParams) : State :=
  {| roomId := initial_roomId params; socket := None; isPlayer := false;
     isPlayerRef := false; board := emptyBoard; otherBoard := emptyBoard;
     input := []; otherTyping := 0%Z; status := [];
     opponentJoined := false; spectators := 0%Z |}.

(** ** What the client sends, and what it receives *)

(** [socket.emit(...)] calls and the timers a handler arms.  The DOM calls
    [e.preventDefault()] and [inputRef.current?.focus()] touch no state of
    the component and are left out. *)
Inductive Effect :=
| emit_room_join (roomId : jsstring)
| emit_typing (length : nat)
| emit_guess (guess : jsstring)
| emit_reset_room
| setTimeout_clear_status (ms : N).

(** The payload of [guess:result]; [result_guess] is its [guess] field. *)
Record GuessResult := {
  sid : jsstring;
  row : Z;
  result_guess : jsstring;
  feedback : list jsstring;
  winnerSid : option jsstring
}.

(** The events the client registers a handler for with [s.on(...)]. *)
Inductive ServerEvent :=
| connect
| room_hello (youArePlayer : bool)
| room_roster (numPlayers numSpectators : Z)
| room_opponent_joined
| typing_update (length : Z)
| guess_result (payload : GuessResult)
| guess_rejected (reason : jsstring)
| room_finished (solution : jsstring) (winnerSid : option jsstring)
| room_reset.

Inductive Event :=
(* the effect on [roomId] at mount: [const s = io(...); setSocket(s)] *)
| effect_socket (s : Socket)
(* a handler registered on the socket [s] is called *)
| socket_on (s : Socket) (e : ServerEvent)
(* the timer callback [() => setStatus('')] *)
| timeout_clear_status
(* DOM handlers; a new room id re-runs the effect on [roomId], which
   creates the socket [s] *)
| roomId_onChange (value : jsstring) (s : Socket)
| input_onChange (value : jsstring)
| form_onSubmit
| reset_onClick.

Definition str_eq (a b : jsstring) : bool := bool_decide (a = b).

(** [prev.map((r, i) => (i === row ? entry : r))] *)
Definition replace_row (row : Z) (entry : Entry) (prev : list Entry)
  : list Entry :=
  imap (fun i r => if (Z.of_nat i =? row)%Z then entry else r) prev.

Definition you_win : jsstring := js "You win! " ++ [55356; 57225].
Definition they_win : jsstring := js "They win! " ++ [55357; 56868].
Definition opponent_joined_msg : jsstring :=
  js "Opponent joined! " ++ [55357; 57314].

(** [s.on('guess:result', (payload) => ...)] *)
Definition guess_result_handler (s : Socket) (payload : GuessResult)
    (st : State) : State :=
  let entry := {| guess := result_guess payload; fb := feedback payload |} in
  let st1 :=
    if str_eq (sid payload) (socket_id s)
    then setBoard (replace_row (row payload) entry (board st)) st
    else setOtherBoard (replace_row (row payload) entry (otherBoard st)) st in
  if JS.truthy (winnerSid payload)
  then setStatus (if bool_decide (winnerSid payload = Some (socket_id s))
                  then you_win else they_win) st1
  else st1.

(** [s.on('room:finished', ({ solution, winnerSid }) => ...)], with
    [upper] for the platform's String.prototype.toUpperCase:
    [if (!winnerSid) setStatus('Draw. Solution: ' + solution.toUpperCase())] *)
Definition room_finished_handler_with (upper : jsstring -> jsstring)
    (solution : jsstring) (winnerSid : option jsstring) (st : State)
  : State :=
  if negb (JS.truthy winnerSid)
  then setStatus (js "Draw. Solution: " ++ upper solution) st
  else st.

(** The handler as the client model runs it, with the ASCII case mapping:
    the status it computes is the platform's for a solution of ASCII
    code units. *)
Definition room_finished_handler (solution : jsstring)
    (winnerSid : option jsstring) (st : State) : State :=
  room_finished_handler_with JS.toUpperCase solution winnerSid st.

(** [s.on('room:reset', () => ...)] *)
Definition room_reset_handler (st : State) : State :=
  setInput [] (setStatus [] (setOtherBoard emptyBoard (setBoard emptyBoard st))).

(** [s.on('room:roster', (payload) => ...)] *)
Definition room_roster_handler (numPlayers numSpectators : Z) (st : State)
  : State :=
  let st1 := setSpectators numSpectators st in
  let amPlayer := isPlayerRef st1 in
  setOpponentJoined (amPlayer && (2 <=? numPlayers)%Z) st1.

(** The [onChange] of the guess field. *)
Definition sanitize (value : jsstring) : jsstring :=
  JS.toLowerCase (JS.slice0 WORD_LEN (JS.replace_non_letters value)).

(** [submitGuess]: the state and what is emitted. *)
Definition submitGuess (st : State) : State * list Effect :=
  match socket st with
  | None => (st, [])
  | Some _ =>
      if negb (isPlayer st) || negb (length (input st) =? WORD_LEN)%nat
      then (st, [])
      else (setInput [] st, [emit_guess (input st)])
  end.

(** [handleReset]: [socket?.emit('reset_room')] *)
Definition handleReset (st : State) : list Effect :=
  match socket st with
  | None => []
  | Some _ => [emit_reset_room]
  end.

(** The effect on [[input, socket]]:
    [if (!socket) return; socket.emit('typing', { length: input.length })] *)
Definition typing_effect (sock : option Socket) (inp : jsstring)
  : list Effect :=
  match sock with
  | None => []
  | Some _ => [emit_typing (length inp)]
  end.

(** The handlers registered on the socket [s]. The [roomId] of the
    [connect] handler is the one the effect was run with, which is the
    current one: the effect is re-run whenever [roomId] changes. *)
Definition socket_handler (s : Socket) (e : ServerEvent) (st : State)
  : State * list Effect :=
  match e with
  | connect => (st, [emit_room_join (roomId st)])
  | room_hello p => (setIsPlayerRef p (setIsPlayer p st), [])
  | room_roster np ns => (room_roster_handler np ns st, [])
  | room_opponent_joined =>
      (setStatus opponent_joined_msg (setOpponentJoined true st),
       [setTimeout_clear_status 1500])
  | typing_update len => (setOtherTyping len st, [])
  | guess_result p => (guess_result_handler s p st, [])
  | guess_rejected reason =>
      (setStatus reason st, [setTimeout_clear_status 1200])
  | room_finished solution w => (room_finished_handler solution w st, [])
  | room_reset => (room_reset_handler st, [])
  end.

(** One event: the handler's state updates and effects. *)
Definition handle (st : State) (ev : Event) : State * list Effect :=
  match ev with
  | effect_socket s => (setSocket (Some s) st, [])
  | socket_on s e => socket_handler s e st
  | timeout_clear_status => (setStatus [] st, [])
  | roomId_onChange v s =>
      if str_eq v (roomId st) then (st, [])
      else (setSocket (Some s) (setRoomId v st), [])
  | input_onChange v => (setInput (sanitize v) st, [])
  | form_onSubmit => submitGuess st
  | reset_onClick => (st, handleReset st)
  end.

(** A new socket object, or a new value of [input], re-runs the typing
    effect after the render. *)
Definition typing_deps_changed (ev : Event) (st st' : State) : bool :=
  match ev with
  | effect_socket _ => true
  | roomId_onChange v _ => negb (str_eq v (roomId st))
  | _ => negb (str_eq (input st) (input st'))
  end.

Definition step (st : State) (ev : Event) : State * list Effect :=
  let '(st', out) := handle st ev in
  (st', out ++ if typing_deps_changed ev st st'
               then typing_effect (socket st') (input st') else []).

Fixpoint run (st : State) (evs : list Event) : State * list Effect :=
  match evs with
  | [] => (st, [])
  | ev :: evs' =>
      let '(st1, out1) := step st ev in
      let '(st2, out2) := run st1 evs' in
      (st2, out1 ++ out2)
  end.

(** The payloads of the [typing] events among the effects. *)
Definition typing_payloads (out : list Effect) : list nat :=
  omap (fun e => match e with emit_typing n => Some n | _ => None end) out.

(** The payloads of the [guess] events among the effects. *)
Definition guess_payloads (out : list Effect) : list jsstring :=
  omap (fun e => match e with emit_guess w => Some w | _ => None end) out.

(** A word of lowercase ASCII letters. *)
Definition lowercase_word (w : jsstring) : Prop :=
  Forall (fun c => JS.is_lower c = true) w.

(** What the guess field may hold. *)
Definition input_ok (st : State) : Prop :=
  lowercase_word (input st) /\ (length (input st) <= WORD_LEN)%nat.

(** States the component can be in. *)
Inductive reachable (params : SearchParams) : State -> Prop :=
| reachable_initial : reachable params (App_initial params)
| reachable_step st ev :
    reachable params st -> reachable params (step st ev).1.

(** ** Rendering *)

(** What [Cell] draws: the background class chosen from [state], and the
    letter. *)
Record CellView := { cls : jsstring; letter : jsstring }.

(** [Cell({ state, letter })]; [state] is a string, or null/undefined. *)
Definition Cell (state : option jsstring) (letter : jsstring) : CellView :=
  let cls :=
    if bool_decide (state = Some (js "g")) then js "bg-green-600"
    else if bool_decide (state = Some (js "y")) then js "bg-yellow-600"
    else if bool_decide (state = Some (js "b")) then js "bg-slate-700"
    else js "bg-slate-800" in
  {| cls := cls; letter := letter |}.

(** [const fb = [...feedback]; while (fb.length < WORD_LEN) fb.push(null)] *)
Definition pad_feedback (feedback : list jsstring) : list (option jsstring) :=
  (Some <$> feedback) ++ replicate (WORD_LEN - length feedback)%nat None.

(** [Row({ guess, feedback })]: one cell per code unit of the padded guess;
    [fb[i]] past the end of [fb] is undefined. *)
Definition Row (guess : jsstring) (feedback : list jsstring) : list CellView :=
  let letters := JS.split_units (JS.padEnd WORD_LEN guess) in
  let fb := pad_feedback feedback in
  imap (fun i ch => Cell (mjoin (fb !! i)) (JS.trim ch)) letters.

(** The rows under "You". *)
Definition render_board (st : State) : list (list CellView) :=
  (fun r => Row (guess r) (fb r)) <$> board st.

(** The rows under "Opponent": [<Row guess={" "} feedback={r.fb} />]. *)
Definition render_otherBoard (st : State) : list (list CellView) :=
  (fun r => Row (js " ") (fb r)) <$> otherBoard st.

(** The typing progress boxes: shown when [otherTyping > 0], box [i] is
    filled when [i < otherTyping]. *)
Definition render_typing (st : State) : option (list bool) :=
  if (0 <? otherTyping st)%Z
  then Some (imap (fun i _ => (Z.of_nat i <? otherTyping st)%Z)
               (replicate WORD_LEN tt))
  else None.

(** The "Opponent" section. *)
Definition render_opponent (st : State)
  : list (list CellView) * option (list bool) :=
  (render_otherBoard st, render_typing st).

(** The [value] of the guess field: [input.toUpperCase()]. *)
Definition input_value (st : State) : jsstring := JS.toUpperCase (input st).

(** The [disabled] attribute of the Guess button:
    [input.length !== WORD_LEN]. *)
Definition guess_disabled (st : State) : bool :=
  negb (length (input st) =? WORD_LEN)%nat.

(** The one event that makes the client a player: [room:hello] with a
    truthy [youArePlayer]. *)
Definition grants_player (ev : Event) : bool :=
  match ev with
  | socket_on _ (room_hello true) => true
  | _ => false
  end.

(** [emit('reset_room')] occurs among the effects. *)
Definition emits_reset_room (out : list Effect) : bool :=
  existsb (fun e => match e with emit_reset_room => true | _ => false end) out.

(** The payloads of the [room_join] events among the effects. *)
Definition room_join_payloads (out : list Effect) : list jsstring :=
  omap (fun e => match e with emit_room_join r => Some r | _ => None end) out.

(** ** The server side, from its specification *)

Module FeedbackEngine.

Local Open Scope nat_scope.

(** Modelled from the spec: the per-letter outcome of the feedback engine
    (the server is not part of the client sources). *)
Inductive mark := GREEN | YELLOW | GRAY.

(** Modelled from the spec: the per-letter remaining-count table of the
    feedback engine (the server is not part of the client sources); a
    letter without an entry has count 0. *)
Definition remaining (tbl : gmap N nat) (c : N) : nat :=
  default 0 (tbl !! c).

(** Modelled from the spec: one more occurrence of a letter, used to
    initialise the table from the target's letter multiset. *)
Definition add_letter (c : N) (tbl : gmap N nat) : gmap N nat :=
  <[c := S (remaining tbl c)]> tbl.

(** Modelled from the spec: the table "initialized from target's letter
    multiset". *)
Definition letter_counts (target : list N) : gmap N nat :=
  foldr add_letter ∅ target.

(** Modelled from the spec: "consume one occurrence of that letter". *)
Definition consume (c : N) (tbl : gmap N nat) : gmap N nat :=
  <[c := pred (remaining tbl c)]> tbl.

(** Modelled from the spec: pass 1 (exact positions). For each index, if
    [guess[i] == target[i]] the position is GREEN (true) and one occurrence
    of the letter is consumed. Returns the GREEN flags and the table. *)
Fixpoint pass1 (guess target : list N) (tbl : gmap N nat)
  : list bool * gmap N nat :=
  match guess, target with
  | g :: guess', t :: target' =>
      if (g =? t)%N
      then let '(greens, tbl') := pass1 guess' target' (consume g tbl) in
           (true :: greens, tbl')
      else let '(greens, tbl') := pass1 guess' target' tbl in
           (false :: greens, tbl')
  | _, _ => ([], tbl)
  end.

(** Modelled from the spec: pass 2 (remaining positions). For each index
    not already GREEN, if [guess[i]] has remaining count > 0 the position
    is YELLOW and the count is decremented; otherwise it is GRAY. *)
Fixpoint pass2 (guess : list N) (greens : list bool) (tbl : gmap N nat)
  : list mark :=
  match guess, greens with
  | g :: guess', true :: greens' => GREEN :: pass2 guess' greens' tbl
  | g :: guess', false :: greens' =>
      if 0 <? remaining tbl g
      then YELLOW :: pass2 guess' greens' (consume g tbl)
      else GRAY :: pass2 guess' greens' tbl
  | _, _ => []
  end.

(** Modelled from the spec: [feedback(guess, target)], the two passes. *)
Definition feedback (guess target : list N) : list mark :=
  let '(greens, tbl) := pass1 guess target (letter_counts target) in
  pass2 guess greens tbl.

(** Occurrences of a letter in a word. *)
Fixpoint count_in (L : N) (w : list N) : nat :=
  match w with
  | [] => 0
  | c :: w' => (if (c =? L)%N then 1 else 0) + count_in L w'
  end.

Definition is_hit (m : mark) : bool :=
  match m with GRAY => false | _ => true end.

(** GREEN plus YELLOW marks on the occurrences of a letter in the guess. *)
Fixpoint hits (L : N) (guess : list N) (marks : list mark) : nat :=
  match guess, marks with
  | c :: guess', m :: marks' =>
      (if (c =? L)%N && is_hit m then 1 else 0) + hits L guess' marks'
  | _, _ => 0
  end.

(** Occurrences of a letter in the guess at positions whose pass-1 flag
    is [b]. *)
Fixpoint flagged (b : bool) (L : N) (guess : list N) (greens : list bool)
  : nat :=
  match guess, greens with
  | c :: guess', f :: greens' =>
      (if (c =? L)%N && bool_decide (f = b) then 1 else 0)
      + flagged b L guess' greens'
  | _, _ => 0
  end.

End FeedbackEngine.

Module Room.

(** Modelled from the spec: the role of a session (the server is not part
    of the client sources). *)
Inductive role := PLAYER | SPECTATOR.

(** Modelled from the spec: the room's roster as the session coordinator
    sees it (the server is not part of the client sources): the sessions
    connected to the room, and the at most two of them that are players. *)
Record Room := { members : list jsstring; players : list jsstring }.

(** Modelled from the spec: the role a session holds in the room. *)
Definition role_of (r : Room) (sessionId : jsstring) : role :=
  if bool_decide (sessionId ∈ players r) then PLAYER else SPECTATOR.

(** Modelled from the spec: [typingProgress(sessionId, length)], a
    stateless relay. "Non-players' typing updates are ignored"; a
    player's is forwarded as [typing:update] "to the room, minus the
    sender itself". The result lists each recipient with the event. *)
Definition typingProgress (r : Room) (sessionId : jsstring) (length : Z)
  : list (jsstring * ServerEvent) :=
  match role_of r sessionId with
  | SPECTATOR => []
  | PLAYER =>
      (fun m => (m, typing_update length))
        <$> List.filter (fun m => negb (str_eq m sessionId)) (members r)
  end.

(** Modelled from the spec: the coordinator's handling of the [typing]
    events among what a session's client emits; each goes through
    [typingProgress] with the length it carries. *)
Definition relay_typing (r : Room) (sessionId : jsstring) (e : Effect)
  : list (jsstring * ServerEvent) :=
  match e with
  | emit_typing len => typingProgress r sessionId (Z.of_nat len)
  | _ => []
  end.

(** The events of a delivery list addressed to one session. *)
Definition inbox (me : jsstring) (ds : list (jsstring * ServerEvent))
  : list ServerEvent :=
  snd <$> List.filter (fun d => str_eq d.1 me) ds.

End Room.

(** The room with the clients connected to it: the server side follows the
    specification of Room State and of the session coordinator, each
    client is the [App] component above. *)
Module Coordinator.
Import Room.

(** Modelled from the spec: [join(sessionId)] of Room State (the server is
    not part of the client sources). "If players.length < 2 and session
    not already a player, appends to players, returns PLAYER; otherwise
    returns SPECTATOR"; the session is connected to the room either way. *)
Definition join (r : Room) (sessionId : jsstring) : Room * role :=
  if (length (players r) <? 2)%nat
     && negb (bool_decide (sessionId ∈ players r))
  then ({| members := members r ++ [sessionId];
           players := players r ++ [sessionId] |}, PLAYER)
  else ({| members := members r ++ [sessionId];
           players := players r |}, SPECTATOR).

(** Modelled from the spec: [leave(sessionId)] of Room State. The session
    is removed from the roster; "if it was a player, the player slot is
    marked vacant". *)
Definition leave (r : Room) (sessionId : jsstring) : Room :=
  {| members := List.filter (fun m => negb (str_eq m sessionId)) (members r);
     players := List.filter (fun m => negb (str_eq m sessionId)) (players r) |}.

(** Modelled from the spec: the [room:roster] event with the room's
    counts; the spectator count is the "count of connected sessions in the
    room minus players.length". *)
Definition roster (r : Room) : ServerEvent :=
  room_roster (Z.of_nat (length (players r)))
    (Z.of_nat (length (members r) - length (players r))).

(** Modelled from the spec: an event sent "to all members of the room". *)
Definition broadcast (r : Room) (e : ServerEvent)
  : list (jsstring * ServerEvent) :=
  (fun m => (m, e)) <$> members r.

(** Modelled from the spec: the "opponent joined" notification, sent "to
    existing player(s)" when the "roster goes from 1 player to 2". *)
Definition opponent_arrival (before after : Room)
  : list (jsstring * ServerEvent) :=
  if (length (players before) =? 1)%nat && (length (players after) =? 2)%nat
  then (fun m => (m, room_opponent_joined)) <$> players before
  else [].

(** Modelled from the spec: what the coordinator sends on a connect that
    joined the room: the joiner's role ("hello"), the roster counts to all
    members, the new one included, and the opponent-arrival signal. *)
Definition on_join (before after : Room) (sessionId : jsstring) (ro : role)
  : list (jsstring * ServerEvent) :=
  (sessionId, room_hello (match ro with PLAYER => true | SPECTATOR => false end))
  :: broadcast after (roster after) ++ opponent_arrival before after.

(** The room and the state of the client of each connected session. *)
Record System := { room : Room; clients : gmap jsstring State }.

(** A client receives an event on its socket. The events delivered here
    ([room:hello], [room:roster], [room:opponent_joined], [typing:update])
    make the client emit nothing. *)
Definition receive (cs : gmap jsstring State) (d : jsstring * ServerEvent)
  : gmap jsstring State :=
  match cs !! d.1 with
  | Some st => <[d.1 := (step st (socket_on {| socket_id := d.1 |} d.2)).1]> cs
  | None => cs
  end.

(** What happens in the room: a session connects (its page was opened
    with the query string [params]), a session disconnects, or something
    happens at the client of a session (a DOM event, a timer). *)
Inductive Action :=
| connects (sessionId : jsstring) (params : SearchParams)
| disconnects (sessionId : jsstring)
| client_event (sessionId : jsstring) (ev : Event).

Definition actor (a : Action) : jsstring :=
  match a with
  | connects sessionId _ => sessionId
  | disconnects sessionId => sessionId
  | client_event sessionId _ => sessionId
  end.

(** Modelled from the spec: the session coordinator. On connect it joins
    the session (a session already connected is left as it is) and sends
    [on_join]; on disconnect it calls [leave] and "re-broadcasts updated
    roster counts to the remaining room members"; the [typing] events a
    client emits go through [relay_typing]. Its handling of [guess] and
    [reset_room] is not described here. *)
Definition act (sys : System) (a : Action) : System :=
  match a with
  | connects sessionId params =>
      match clients sys !! sessionId with
      | Some _ => sys
      | None =>
          let s := {| socket_id := sessionId |} in
          let st :=
            (run (App_initial params) [effect_socket s; socket_on s connect]).1 in
          let '(after, ro) := join (room sys) sessionId in
          {| room := after;
             clients := foldl receive (<[sessionId := st]> (clients sys))
                          (on_join (room sys) after sessionId ro) |}
      end
  | disconnects sessionId =>
      match clients sys !! sessionId with
      | None => sys
      | Some _ =>
          let after := leave (room sys) sessionId in
          {| room := after;
             clients := foldl receive (delete sessionId (clients sys))
                          (broadcast after (roster after)) |}
      end
  | client_event sessionId ev =>
      match clients sys !! sessionId with
      | None => sys
      | Some st =>
          {| room := room sys;
             clients :=
               foldl receive (<[sessionId := (step st ev).1]> (clients sys))
                 (concat (relay_typing (room sys) sessionId
                          <$> (step st ev).2)) |}
      end
  end.

(** A typing input of session [c]: a change of its guess field. *)
Definition typing_input_of (c : jsstring) (a : Action) : bool :=
  match a with
  | client_event sessionId (input_onChange _) => str_eq sessionId c
  | _ => false
  end.

(** Two systems that differ at most in the client of [c]. *)
Definition agree_but (c : jsstring) (sys1 sys2 : System) : Prop :=
  room sys1 = room sys2
  /\ forall o, o <> c -> clients sys1 !! o = clients sys2 !! o.

End Coordinator.

(** * Properties *)

Example js_lobby : js "lobby" = [108; 111; 98; 98; 121].
Proof. reflexivity. Qed.

Example trim_blank : JS.trim (js " ") = [].
Proof. reflexivity. Qed.

Example padEnd_blank : JS.padEnd 5 (js " ") = js "     ".
Proof. reflexivity. Qed.

Example feedback_llama_allot :
  FeedbackEngine.feedback (js "llama") (js "allot")
  = [FeedbackEngine.YELLOW; FeedbackEngine.GREEN; FeedbackEngine.YELLOW;
     FeedbackEngine.GRAY; FeedbackEngine.GRAY].
Proof. vm_compute. reflexivity. Qed.

(** ** The feedback engine *)

Module FeedbackFacts.
Import FeedbackEngine.
Local Open Scope nat_scope.

Lemma remaining_add_letter c tbl L :
  remaining (add_letter c tbl) L
  = (if (c =? L)%N then 1 else 0) + remaining tbl L.
Proof.
  unfold add_letter, remaining at 1.
  destruct (N.eqb_spec c L) as [->|Hne].
  - by rewrite lookup_insert_eq.
  - by rewrite lookup_insert_ne.
Qed.

Lemma remaining_letter_counts target L :
  remaining (letter_counts target) L = count_in L target.
Proof.
  induction target as [|c target IH]; simpl.
  - done.
  - by rewrite remaining_add_letter, IH.
Qed.

Lemma remaining_consume c tbl L :
  remaining (consume c tbl) L
  = if (c =? L)%N then pred (remaining tbl L) else remaining tbl L.
Proof.
  unfold consume, remaining at 1.
  destruct (N.eqb_spec c L) as [->|Hne].
  - by rewrite lookup_insert_eq.
  - by rewrite lookup_insert_ne.
Qed.

(** Pass 1 flags every position, splits the occurrences of a letter in
    the guess into GREEN and pending ones, never marks more GREEN than
    the target has occurrences, and leaves in the table what it did not
    consume. *)
Lemma pass1_spec L guess :
  forall target tbl,
    length guess = length target ->
    length (pass1 guess target tbl).1 = length guess
    /\ flagged true L guess (pass1 guess target tbl).1
       + flagged false L guess (pass1 guess target tbl).1
       = count_in L guess
    /\ flagged true L guess (pass1 guess target tbl).1 <= count_in L target
    /\ remaining (pass1 guess target tbl).2 L
       = remaining tbl L - flagged true L guess (pass1 guess target tbl).1.
Proof.
  induction guess as [|g guess IH]; intros [|t target] tbl Hlen;
    simpl in *; try discriminate.
  - repeat split; lia.
  - injection Hlen as Hlen.
    destruct (N.eqb_spec g t) as [->|Hgt].
    + specialize (IH target (consume t tbl) Hlen).
      destruct (pass1 guess target (consume t tbl)) as [greens tbl'].
      simpl in *. destruct IH as (Hl & Hsum & Hle & Hrem).
      rewrite Hrem, remaining_consume.
      destruct (t =? L)%N; simpl; repeat split; lia.
    + specialize (IH target tbl Hlen).
      destruct (pass1 guess target tbl) as [greens tbl'].
      simpl in *. destruct IH as (Hl & Hsum & Hle & Hrem).
      rewrite Hrem.
      destruct (N.eqb_spec g L) as [->|HgL], (N.eqb_spec t L) as [->|HtL];
        simpl; repeat split; try lia; congruence.
Qed.

(** Pass 2 turns into YELLOW as many pending occurrences of a letter as
    the table still holds. *)
Lemma pass2_hits L guess :
  forall greens tbl,
    hits L guess (pass2 guess greens tbl)
    = flagged true L guess greens
      + Nat.min (remaining tbl L) (flagged false L guess greens).
Proof.
  induction guess as [|g guess IH]; intros [|[] greens] tbl; simpl;
    try lia.
  - rewrite IH. destruct (g =? L)%N; simpl; lia.
  - destruct (Nat.ltb_spec 0 (remaining tbl g)) as [Hpos|Hzero]; simpl;
      rewrite IH.
    + rewrite remaining_consume.
      destruct (N.eqb_spec g L) as [->|HgL]; simpl; lia.
    + destruct (N.eqb_spec g L) as [->|HgL]; simpl; lia.
Qed.

Lemma hits_feedback L guess target :
  length guess = length target ->
  hits L guess (feedback guess target)
  = Nat.min (count_in L guess) (count_in L target).
Proof.
  intros Hlen. unfold feedback.
  pose proof (pass1_spec L guess target (letter_counts target) Hlen)
    as (_ & Hsum & Hle & Hrem).
  destruct (pass1 guess target (letter_counts target)) as [greens tbl].
  simpl in *. rewrite pass2_hits, Hrem, remaining_letter_counts. lia.
Qed.

(** A position is GREEN exactly when guess and target agree there. *)
Lemma pass1_flag guess :
  forall target tbl i,
    (pass1 guess target tbl).1 !! i = Some true
    <-> exists c, guess !! i = Some c /\ target !! i = Some c.
Proof.
  induction guess as [|g guess IH]; intros [|t target] tbl i; simpl.
  - split; [done | by intros (c & ? & ?)].
  - split; [done | by intros (c & ? & ?)].
  - split; [done | by intros (c & ? & ?)].
  - destruct (N.eqb_spec g t) as [->|Hgt].
    + specialize (IH target (consume t tbl)).
      destruct (pass1 guess target (consume t tbl)) as [greens tbl'].
      destruct i as [|i]; simpl in *.
      * split; [eauto | done].
      * apply IH.
    + specialize (IH target tbl).
      destruct (pass1 guess target tbl) as [greens tbl'].
      destruct i as [|i]; simpl in *.
      * split; [done | intros (c & ? & ?); congruence].
      * apply IH.
Qed.

Lemma pass2_green guess :
  forall greens tbl i,
    pass2 guess greens tbl !! i = Some GREEN <-> 
    (greens !! i = Some true /\ i < length guess).
Proof.
  induction guess as [|g guess IH]; intros [|[] greens] tbl i; simpl;
    try (split; [done | intros [? ?]; (done || lia)]).
  - destruct i as [|i]; simpl.
    + split; [intros _; split; [done | lia] | done].
    + rewrite IH. split; intros [? ?]; split; (done || lia).
  - destruct (0 <? remaining tbl g); destruct i as [|i]; simpl;
      try (split; [done | intros [? ?]; done]);
      rewrite IH; split; intros [? ?]; split; (done || lia).
Qed.

Lemma feedback_green guess target i :
  feedback guess target !! i = Some GREEN
  <-> exists c, guess !! i = Some c /\ target !! i = Some c.
Proof.
  unfold feedback.
  pose proof (pass1_flag guess target (letter_counts target) i) as Hflag.
  destruct (pass1 guess target (letter_counts target)) as [greens tbl].
  simpl in *. rewrite pass2_green, Hflag.
  split.
  - by intros [? _].
  - intros (c & Hg & Ht). split; [eauto |]. by eapply lookup_lt_Some.
Qed.

Lemma feedback_length guess target :
  length guess = length target ->
  length (feedback guess target) = length guess.
Proof.
  intros Hlen. unfold feedback.
  pose proof (pass1_spec 0%N guess target (letter_counts target) Hlen)
    as (Hl & _).
  destruct (pass1 guess target (letter_counts target)) as [greens tbl].
  simpl in *. clear Hlen. revert greens tbl Hl.
  induction guess as [|g guess IH]; intros [|[] greens] tbl Hl;
    simpl in *; try done.
  - f_equal. apply IH. lia.
  - destruct (0 <? remaining tbl g); simpl; f_equal; apply IH; lia.
Qed.

Lemma feedback_self target :
  feedback target target = replicate (length target) GREEN.
Proof.
  apply list_eq. intros i.
  destruct (decide (i < length target)) as [Hi|Hi].
  - rewrite lookup_replicate_2 by done.
    apply feedback_green.
    destruct (lookup_lt_is_Some_2 target i Hi) as [c Hc]. eauto.
  - rewrite !lookup_ge_None_2; [done | |].
    + rewrite length_replicate. lia.
    + rewrite feedback_length by done. lia.
Qed.

End FeedbackFacts.

(** C1. For a target T and a guess G of equal length (in the protocol both
    have length WORD_LEN and are made of letters): [feedback(T, T)] is
    all GREEN; for every letter L the GREEN plus YELLOW marks on the
    occurrences of L in G are [min (count of L in G) (count of L in T)];
    and GREEN has priority: a position is GREEN exactly when guess and
    target agree there, so exact matches are credited before any YELLOW. *)
Theorem feedback_marks (T G : list N) :
  length G = length T ->
  FeedbackEngine.feedback T T
  = replicate (length T) FeedbackEngine.GREEN
  /\ (forall L,
        FeedbackEngine.hits L G (FeedbackEngine.feedback G T)
        = Nat.min (FeedbackEngine.count_in L G) (FeedbackEngine.count_in L T))
  /\ (forall i,
        FeedbackEngine.feedback G T !! i = Some FeedbackEngine.GREEN
        <-> exists c, G !! i = Some c /\ T !! i = Some c).
Proof.
  intros Hlen. split; [apply FeedbackFacts.feedback_self |].
  split.
  - intros L. by apply FeedbackFacts.hits_feedback.
  - intros i. apply FeedbackFacts.feedback_green.
Qed.

Lemma feedback_marks_witness :
  length (js "llama") = WORD_LEN /\ length (js "allot") = WORD_LEN
  /\ FeedbackEngine.feedback (js "allot") (js "allot")
     = replicate 5 FeedbackEngine.GREEN
  /\ FeedbackEngine.hits 108 (js "llama")
       (FeedbackEngine.feedback (js "llama") (js "allot")) = 2%nat.
Proof.
  destruct (feedback_marks (js "allot") (js "llama") eq_refl)
    as (Hself & Hhits & _).
  split; [reflexivity |]. split; [reflexivity |].
  split; [exact Hself | exact (Hhits 108)].
Defined.

(** ** The client *)

Section Boards.
Implicit Types (prev : list Entry) (entry : Entry) (row : Z).

Lemma replace_row_length row entry prev :
  length (replace_row row entry prev) = length prev.
Proof. unfold replace_row. by rewrite length_imap. Qed.

Lemma replace_row_lookup row entry prev i :
  replace_row row entry prev !! i
  = (fun r => if (Z.of_nat i =? row)%Z then entry else r) <$> prev !! i.
Proof. unfold replace_row. by rewrite list_lookup_imap. Qed.

(** In range, [replace_row] is the array update at [row]. *)
Lemma replace_row_insert (n : nat) entry prev :
  replace_row (Z.of_nat n) entry prev = <[n := entry]> prev.
Proof.
  apply list_eq. intros i. rewrite replace_row_lookup.
  destruct (decide (i = n)) as [->|Hne].
  - rewrite Z.eqb_refl.
    destruct (decide (n < length prev)%nat) as [Hlt|Hge].
    + rewrite list_lookup_insert_eq by done.
      destruct (lookup_lt_is_Some_2 prev n Hlt) as [r ->]. done.
    + rewrite list_insert_ge by lia.
      rewrite lookup_ge_None_2 by lia. done.
  - rewrite list_lookup_insert_ne by done.
    destruct (Z.eqb_spec (Z.of_nat i) (Z.of_nat n)); [lia |].
    by destruct (prev !! i).
Qed.

(** A row index that is no array index replaces nothing. *)
Lemma replace_row_out_of_range row entry prev :
  (row < 0 \/ Z.of_nat (length prev) <= row)%Z ->
  replace_row row entry prev = prev.
Proof.
  intros Hout. apply list_eq. intros i. rewrite replace_row_lookup.
  destruct (prev !! i) as [r|] eqn:Hi; [|done]. simpl.
  apply lookup_lt_Some in Hi.
  destruct (Z.eqb_spec (Z.of_nat i) row); [lia | done].
Qed.

(** The feedback column of a board after a row is replaced depends on
    the entry's feedback only. *)
Lemma replace_row_fb row entry entry' prev :
  fb entry = fb entry' ->
  fb <$> replace_row row entry prev = fb <$> replace_row row entry' prev.
Proof.
  intros Hfb. apply list_eq. intros i.
  rewrite !list_lookup_fmap, !replace_row_lookup.
  destruct (prev !! i) as [r|]; [|done]. simpl.
  by destruct (Z.of_nat i =? row)%Z; rewrite ?Hfb.
Qed.
End Boards.

Section Rendering.

(** The opponent's rows are drawn from the feedback column alone. *)
Lemma render_otherBoard_fb st :
  render_otherBoard st = Row (js " ") <$> (fb <$> otherBoard st).
Proof. unfold render_otherBoard. by rewrite <- list_fmap_compose. Qed.

(** A row drawn with the guess [" "] has five cells without a letter. *)
Lemma Row_blank feedback :
  Row (js " ") feedback
  = (fun i => Cell (mjoin (pad_feedback feedback !! i)) [])
      <$> [0; 1; 2; 3; 4]%nat.
Proof. reflexivity. Qed.

Lemma render_otherBoard_no_letters st cells c :
  cells ∈ render_otherBoard st -> c ∈ cells -> letter c = [].
Proof.
  rewrite render_otherBoard_fb. intros Hcells Hc.
  apply list_elem_of_fmap in Hcells as (f & -> & _).
  rewrite Row_blank in Hc.
  apply list_elem_of_fmap in Hc as (i & -> & _). done.
Qed.

End Rendering.

Section Handlers.
Implicit Types (st : State) (s : Socket) (ev : Event).

Lemma step_state st ev : (step st ev).1 = (handle st ev).1.
Proof. unfold step. by destruct (handle st ev). Qed.

Lemma step_effects st ev :
  (step st ev).2
  = (handle st ev).2
    ++ (if typing_deps_changed ev st (handle st ev).1
        then typing_effect (socket (handle st ev).1)
               (input (handle st ev).1)
        else []).
Proof. unfold step. by destruct (handle st ev). Qed.

Lemma step_socket_on st s e :
  (step st (socket_on s e)).1 = (socket_handler s e st).1.
Proof. by rewrite step_state. Qed.

(** The handler of [guess:result] writes one board and, at most, the
    status. *)
Lemma guess_result_mine s p st :
  sid p = socket_id s ->
  board (guess_result_handler s p st)
  = replace_row (row p) {| guess := result_guess p; fb := feedback p |}
      (board st)
  /\ otherBoard (guess_result_handler s p st) = otherBoard st
  /\ otherTyping (guess_result_handler s p st) = otherTyping st.
Proof.
  intros Hsid. unfold guess_result_handler, str_eq.
  rewrite (bool_decide_eq_true_2 (sid p = socket_id s)) by done.
  by destruct (JS.truthy (winnerSid p)).
Qed.

Lemma guess_result_theirs s p st :
  sid p <> socket_id s ->
  otherBoard (guess_result_handler s p st)
  = replace_row (row p) {| guess := result_guess p; fb := feedback p |}
      (otherBoard st)
  /\ board (guess_result_handler s p st) = board st
  /\ otherTyping (guess_result_handler s p st) = otherTyping st.
Proof.
  intros Hsid. unfold guess_result_handler, str_eq.
  rewrite (bool_decide_eq_false_2 (sid p = socket_id s)) by done.
  by destruct (JS.truthy (winnerSid p)).
Qed.

End Handlers.

(** C2. When a [guess:result] comes from another session, the opponent
    section the client draws shows feedback colours only: two such events
    with the same row and feedback, whatever their guess letters, give
    the same rendered opponent section, and no cell of the opponent board
    carries a letter. *)
Theorem opponent_letters_not_rendered (st : State) (s : Socket)
    (p1 p2 : GuessResult) :
  sid p1 <> socket_id s -> sid p2 <> socket_id s ->
  row p1 = row p2 -> feedback p1 = feedback p2 ->
  render_opponent (step st (socket_on s (guess_result p1))).1
  = render_opponent (step st (socket_on s (guess_result p2))).1
  /\ (forall cells c,
        cells ∈ render_otherBoard (step st (socket_on s (guess_result p1))).1 ->
        c ∈ cells -> letter c = []).
Proof.
  intros H1 H2 Hrow Hfb. split.
  - rewrite !step_socket_on. simpl.
    destruct (guess_result_theirs s p1 st H1) as (Hb1 & _ & Ht1).
    destruct (guess_result_theirs s p2 st H2) as (Hb2 & _ & Ht2).
    unfold render_opponent, render_typing. rewrite Ht1, Ht2. f_equal.
    rewrite !render_otherBoard_fb, Hb1, Hb2, Hrow. f_equal.
    by apply replace_row_fb.
  - apply render_otherBoard_no_letters.
Qed.

Lemma opponent_letters_not_rendered_witness :
  render_opponent
    (step (App_initial [])
       (socket_on {| socket_id := js "me" |}
          (guess_result
             {| sid := js "them"; row := 0; result_guess := js "crane";
                feedback := [js "g"; js "b"; js "y"; js "b"; js "b"];
                winnerSid := None |}))).1
  = render_opponent
      (step (App_initial [])
         (socket_on {| socket_id := js "me" |}
            (guess_result
               {| sid := js "them"; row := 0; result_guess := js "cigar";
                  feedback := [js "g"; js "b"; js "y"; js "b"; js "b"];
                  winnerSid := None |}))).1.
Proof.
  apply opponent_letters_not_rendered;
    [vm_compute; discriminate | vm_compute; discriminate
    | reflexivity | reflexivity].
Defined.

(** C4. On [guess:result]: when the payload's [sid] is the client's own
    socket id, the row of the own board at index [row] becomes
    [{guess, fb}], every other row of it is kept and the opponent board is
    unchanged; otherwise the same holds with the two boards exchanged. *)
Theorem guess_result_frame (st : State) (s : Socket) (p : GuessResult) :
  let st' := (step st (socket_on s (guess_result p))).1 in
  let entry := {| guess := result_guess p; fb := feedback p |} in
  (sid p = socket_id s ->
     length (board st') = length (board st)
     /\ (forall i r, board st !! i = Some r ->
           board st' !! i
           = Some (if (Z.of_nat i =? row p)%Z then entry else r))
     /\ otherBoard st' = otherBoard st)
  /\ (sid p <> socket_id s ->
        length (otherBoard st') = length (otherBoard st)
        /\ (forall i r, otherBoard st !! i = Some r ->
              otherBoard st' !! i
              = Some (if (Z.of_nat i =? row p)%Z then entry else r))
        /\ board st' = board st).
Proof.
  intros st' entry. subst st'. rewrite step_socket_on. simpl.
  split; intros Hsid.
  - destruct (guess_result_mine s p st Hsid) as (-> & -> & _).
    split; [apply replace_row_length |]. split; [|done].
    intros i r Hi. by rewrite replace_row_lookup, Hi.
  - destruct (guess_result_theirs s p st Hsid) as (-> & -> & _).
    split; [apply replace_row_length |]. split; [|done].
    intros i r Hi. by rewrite replace_row_lookup, Hi.
Qed.

Lemma guess_result_frame_witness :
  board
    (step (App_initial [])
       (socket_on {| socket_id := js "me" |}
          (guess_result
             {| sid := js "me"; row := 2; result_guess := js "crane";
                feedback := [js "g"; js "b"; js "y"; js "b"; js "b"];
                winnerSid := None |}))).1 !! 2%nat
  = Some {| guess := js "crane";
            fb := [js "g"; js "b"; js "y"; js "b"; js "b"] |}
  /\ otherBoard
       (step (App_initial [])
          (socket_on {| socket_id := js "me" |}
             (guess_result
                {| sid := js "me"; row := 2; result_guess := js "crane";
                   feedback := [js "g"; js "b"; js "y"; js "b"; js "b"];
                   winnerSid := None |}))).1
     = emptyBoard.
Proof.
  destruct (guess_result_frame (App_initial []) {| socket_id := js "me" |}
              {| sid := js "me"; row := 2; result_guess := js "crane";
                 feedback := [js "g"; js "b"; js "y"; js "b"; js "b"];
                 winnerSid := None |}) as [Hmine _].
  destruct (Hmine eq_refl) as (_ & Hrows & Hother).
  split; [exact (Hrows 2%nat _ eq_refl) | exact Hother].
Defined.

(** C5. On [room:reset] both boards become MAX_GUESSES rows with empty
    guess and empty feedback, and the status message and the input field
    become empty strings. *)
Theorem room_reset_clears (st : State) (s : Socket) :
  let st' := (step st (socket_on s room_reset)).1 in
  board st' = replicate MAX_GUESSES {| guess := []; fb := [] |}
  /\ otherBoard st' = replicate MAX_GUESSES {| guess := []; fb := [] |}
  /\ length (board st') = MAX_GUESSES
  /\ length (otherBoard st') = MAX_GUESSES
  /\ status st' = []
  /\ input st' = [].
Proof.
  intros st'. subst st'. rewrite step_socket_on. simpl. repeat split.
Qed.

(** C10. The [room:reset] handler is idempotent: applied twice it leaves
    the state (board, opponent board, status, input, and the rest) as one
    application does. *)
Theorem room_reset_idempotent (st : State) (s : Socket) :
  room_reset_handler (room_reset_handler st) = room_reset_handler st
  /\ (step (step st (socket_on s room_reset)).1 (socket_on s room_reset)).1
     = (step st (socket_on s room_reset)).1.
Proof. split; [reflexivity |]. by rewrite !step_socket_on. Qed.

(** C8, as stated, fails: a [room:finished] whose [winnerSid] is present
    but is the empty string does not leave the status unchanged; the
    handler tests [!winnerSid] and sets the draw notice. *)
Lemma empty_winnerSid_sets_draw_notice :
  status (App_initial []) = []
  /\ status
       (step (App_initial [])
          (socket_on {| socket_id := js "me" |}
             (room_finished (js "allot") (Some [])))).1
     = js "Draw. Solution: ALLOT"
  /\ status
       (step (App_initial [])
          (socket_on {| socket_id := js "me" |}
             (room_finished (js "allot") (Some [])))).1
     <> status (App_initial []).
Proof. repeat split. discriminate. Qed.

(** C8, amended. On [room:finished] with no [winnerSid], or an empty one,
    the status becomes "Draw. Solution: " followed by the upper-cased
    solution of the event, whatever the platform's [toUpperCase] maps the
    solution to; with a non-empty [winnerSid] the handler leaves the
    state, and so the status, as it was. In the client model, whose case
    mapping is the ASCII one, the same holds of every event with a
    solution of ASCII code units. *)
Theorem room_finished_status (upper : jsstring -> jsstring) (st : State)
    (s : Socket) (solution : jsstring) (winnerSid : option jsstring) :
  (winnerSid = None \/ winnerSid = Some [] ->
   status (room_finished_handler_with upper solution winnerSid st)
   = js "Draw. Solution: " ++ upper solution)
  /\ (forall w, winnerSid = Some w -> w <> [] ->
        room_finished_handler_with upper solution winnerSid st = st)
  /\ (winnerSid = None \/ winnerSid = Some [] ->
      JS.is_ascii solution ->
      status (step st (socket_on s (room_finished solution winnerSid))).1
      = js "Draw. Solution: " ++ JS.toUpperCase solution)
  /\ (forall w, winnerSid = Some w -> w <> [] ->
        (step st (socket_on s (room_finished solution winnerSid))).1 = st).
Proof.
  rewrite !step_socket_on. simpl.
  unfold room_finished_handler, room_finished_handler_with.
  split; [|split; [|split]].
  - by intros [-> | ->].
  - by intros [|c w] -> Hw.
  - by intros [-> | ->] _.
  - by intros [|c w] -> Hw.
Qed.

Lemma room_finished_status_witness :
  status
    (step (App_initial [])
       (socket_on {| socket_id := js "me" |}
          (room_finished (js "allot") None))).1
  = js "Draw. Solution: ALLOT"
  /\ status
       (step (App_initial [])
          (socket_on {| socket_id := js "me" |}
             (room_finished (js "allot") (Some (js "them"))))).1
     = [].
Proof.
  split.
  - destruct (room_finished_status JS.toUpperCase (App_initial [])
                {| socket_id := js "me" |} (js "allot") None)
      as (_ & _ & Hdraw & _).
    apply Hdraw; [by left | repeat constructor].
  - destruct (room_finished_status JS.toUpperCase (App_initial [])
                {| socket_id := js "me" |} (js "allot") (Some (js "them")))
      as (_ & _ & _ & Hwin).
    rewrite (Hwin (js "them")); [reflexivity | reflexivity | discriminate].
Defined.

(** Case analysis over the handlers of an event. *)
Ltac handler_cases st ev :=
  destruct ev as [?|? []| |? ?|?| |]; simpl;
  unfold submitGuess, handleReset, guess_result_handler,
    room_finished_handler, room_finished_handler_with, room_roster_handler,
    room_reset_handler;
  repeat case_match; simpl.

Section Typing.
Implicit Types (st : State) (ev : Event).

(** No handler emits [typing] itself; only the effect does. *)
Lemma handle_no_typing st ev : typing_payloads (handle st ev).2 = [].
Proof. handler_cases st ev; reflexivity. Qed.

(** A handler that changes the input keeps the socket. *)
Lemma handle_socket st ev :
  input (handle st ev).1 <> input st ->
  socket (handle st ev).1 = socket st.
Proof. handler_cases st ev; done. Qed.

Lemma typing_payloads_app out1 out2 :
  typing_payloads (out1 ++ out2) = typing_payloads out1 ++ typing_payloads out2.
Proof. unfold typing_payloads. apply omap_app. Qed.

Lemma input_changed_deps st ev :
  input (handle st ev).1 <> input st ->
  typing_deps_changed ev st (handle st ev).1 = true.
Proof.
  intros Hne. unfold typing_deps_changed, str_eq.
  destruct ev; try reflexivity; try by rewrite bool_decide_eq_false_2.
  simpl in *. unfold str_eq in *. by case_bool_decide.
Qed.

End Typing.

(** C3. Every change of the input field makes the client emit one [typing]
    event, whose payload is the length of the new input and nothing else;
    so two inputs of equal length give identical payloads. *)
Theorem typing_carries_length_only :
  (forall (st : State) (ev : Event) (s : Socket),
      socket st = Some s ->
      input (step st ev).1 <> input st ->
      typing_payloads (step st ev).2 = [length (input (step st ev).1)])
  /\ (forall (sock : option Socket) (input1 input2 : jsstring),
        length input1 = length input2 ->
        typing_effect sock input1 = typing_effect sock input2).
Proof.
  split.
  - intros st ev s Hs Hne. rewrite step_state in *.
    rewrite step_effects, typing_payloads_app, handle_no_typing.
    rewrite input_changed_deps by done.
    rewrite handle_socket, Hs by done. reflexivity.
  - intros [s|] input1 input2 Hlen; simpl; by rewrite ?Hlen.
Qed.

Lemma typing_carries_length_only_witness :
  typing_payloads
    (step (setSocket (Some {| socket_id := js "me" |}) (App_initial []))
       (input_onChange (js "Cr4ne"))).2 = [4%nat]
  /\ typing_effect (Some {| socket_id := js "me" |}) (js "cran")
     = typing_effect (Some {| socket_id := js "me" |}) (js "slot").
Proof.
  destruct typing_carries_length_only as [Hemit Hsame].
  split.
  - apply (Hemit _ (input_onChange (js "Cr4ne")) {| socket_id := js "me" |});
      [reflexivity |].
    vm_compute. discriminate.
  - apply (Hsame _ (js "cran") (js "slot")). reflexivity.
Defined.

Section GuessEvents.
Implicit Types (st : State) (ev : Event).

Lemma lower_unit_letter c :
  JS.is_letter c = true -> JS.is_lower (JS.lower_unit c) = true.
Proof.
  unfold JS.is_letter, JS.lower_unit, JS.is_lower, JS.is_upper. intros Hl.
  destruct ((65 <=? c) && (c <=? 90)) eqn:Hu.
  - apply andb_true_iff in Hu as [Hlo%N.leb_le Hhi%N.leb_le].
    apply andb_true_iff. split; apply N.leb_le; lia.
  - by rewrite orb_false_r in Hl.
Qed.

Lemma replace_non_letters_letters v :
  Forall (fun c => JS.is_letter c = true) (JS.replace_non_letters v).
Proof.
  induction v as [|c v IH]; simpl; [constructor |].
  destruct (JS.is_letter c) eqn:Hc; [by constructor | done].
Qed.

(** What the [onChange] of the guess field stores: at most WORD_LEN
    lowercase ASCII letters. *)
Lemma sanitize_ok v :
  lowercase_word (sanitize v) /\ (length (sanitize v) <= WORD_LEN)%nat.
Proof.
  unfold sanitize, JS.toLowerCase, JS.slice0. split.
  - apply Forall_fmap. eapply Forall_impl.
    + apply Forall_take, replace_non_letters_letters.
    + intros c Hc. by apply lower_unit_letter.
  - rewrite length_fmap, length_take. lia.
Qed.

Lemma handle_input st ev :
  input (handle st ev).1 = input st
  \/ input (handle st ev).1 = []
  \/ exists v, input (handle st ev).1 = sanitize v.
Proof. handler_cases st ev; eauto. Qed.

(** The input field always holds at most WORD_LEN lowercase letters. *)
Lemma reachable_input_ok params st : reachable params st -> input_ok st.
Proof.
  induction 1 as [|st ev Hreach IH].
  - split; [constructor | simpl; lia].
  - rewrite step_state. unfold input_ok in *.
    destruct (handle_input st ev) as [-> | [-> | [v ->]]].
    + exact IH.
    + split; [constructor | simpl; lia].
    + apply sanitize_ok.
Qed.

Lemma reachable_run params st evs :
  reachable params st -> reachable params (run st evs).1.
Proof.
  revert st. induction evs as [|ev evs IH]; intros st Hst; simpl; [done |].
  pose proof (reachable_step params st ev Hst) as Hstep.
  destruct (step st ev) as [st1 out1]. simpl in Hstep.
  specialize (IH st1 Hstep).
  by destruct (run st1 evs) as [st2 out2].
Qed.

Lemma guess_payloads_app out1 out2 :
  guess_payloads (out1 ++ out2) = guess_payloads out1 ++ guess_payloads out2.
Proof. unfold guess_payloads. apply omap_app. Qed.

Lemma typing_effect_no_guess sock inp :
  guess_payloads (typing_effect sock inp) = [].
Proof. by destruct sock. Qed.

(** Only [submitGuess] emits [guess], and only past its guard. *)
Lemma step_guess_payloads st ev :
  guess_payloads (step st ev).2
  = match ev with
    | form_onSubmit =>
        if bool_decide (socket st <> None) && isPlayer st
           && (length (input st) =? WORD_LEN)%nat
        then [input st] else []
    | _ => []
    end.
Proof.
  rewrite step_effects, guess_payloads_app.
  assert (guess_payloads
            (if typing_deps_changed ev st (handle st ev).1
             then typing_effect (socket (handle st ev).1)
                    (input (handle st ev).1)
             else []) = []) as ->.
  { destruct (typing_deps_changed _ _ _);
      [apply typing_effect_no_guess | done]. }
  rewrite app_nil_r.
  destruct ev as [?|? []| |? ?|?| |]; simpl; try reflexivity.
  - by case_match.
  - unfold submitGuess. destruct (socket st); simpl; [|done].
    by destruct (isPlayer st), (length (input st) =? WORD_LEN)%nat.
  - unfold handleReset. by destruct (socket st).
Qed.

End GuessEvents.

(** C6. Every [guess] event the client emits is well-formed: it is emitted
    only while the client is a player, and its word has length WORD_LEN
    and is made of lowercase ASCII letters; when the client is no player,
    or the input has another length, no [guess] is emitted; and a player
    submitting WORD_LEN letters does emit them. *)
Theorem guess_events_well_formed (params : SearchParams) (st : State)
    (ev : Event) :
  reachable params st ->
  (forall w, w ∈ guess_payloads (step st ev).2 ->
     isPlayer st = true
     /\ length w = WORD_LEN
     /\ Forall (fun c => JS.is_lower c = true) w)
  /\ (isPlayer st = false \/ length (input st) <> WORD_LEN ->
      guess_payloads (step st ev).2 = [])
  /\ (socket st <> None -> isPlayer st = true ->
      length (input st) = WORD_LEN ->
      guess_payloads (step st form_onSubmit).2 = [input st]).
Proof.
  intros Hreach. apply reachable_input_ok in Hreach as [Hlow _].
  rewrite !step_guess_payloads. split; [|split].
  - intros w Hw.
    destruct ev; try (by apply elem_of_nil in Hw).
    destruct (isPlayer st);
      [|by rewrite andb_false_r in Hw; apply elem_of_nil in Hw].
    destruct (length (input st) =? WORD_LEN)%nat eqn:Hlen;
      [|by rewrite andb_false_r in Hw; apply elem_of_nil in Hw].
    destruct (bool_decide (socket st <> None)); simpl in Hw;
      [|by apply elem_of_nil in Hw].
    apply list_elem_of_singleton in Hw as ->.
    split; [done |]. split; [by apply Nat.eqb_eq | done].
  - intros [Hrole | Hlen]; destruct ev; try reflexivity.
    + by rewrite Hrole, andb_false_r.
    + apply Nat.eqb_neq in Hlen. by rewrite Hlen, andb_false_r.
  - intros Hsock Hrole Hlen.
    rewrite bool_decide_eq_true_2, Hrole by done.
    apply Nat.eqb_eq in Hlen. by rewrite Hlen.
Qed.

Lemma guess_events_well_formed_witness :
  guess_payloads
    (step (run (App_initial [])
             [effect_socket {| socket_id := js "me" |};
              socket_on {| socket_id := js "me" |} (room_hello true);
              input_onChange (js "Al-lot")]).1 form_onSubmit).2
  = [js "allot"]
  /\ Forall (fun c => JS.is_lower c = true) (js "allot").
Proof.
  pose proof (guess_events_well_formed []
    (run (App_initial [])
       [effect_socket {| socket_id := js "me" |};
        socket_on {| socket_id := js "me" |} (room_hello true);
        input_onChange (js "Al-lot")]).1 form_onSubmit
    (reachable_run [] _ _ (reachable_initial []))) as (Hwf & _ & Hemit).
  split.
  - apply Hemit; [discriminate | reflexivity | reflexivity].
  - apply (Hwf (js "allot")). vm_compute. apply list_elem_of_here.
Defined.

(** ** The room parameter of the page URL *)

Section RoomParam.
Implicit Types (params : SearchParams) (s : Socket).

Lemma connect_emits_roomId params s :
  (step (step (App_initial params) (effect_socket s)).1
     (socket_on s connect)).2
  = [emit_room_join (initial_roomId params)].
Proof. reflexivity. Qed.

End RoomParam.

(** C9, as stated, fails: with the query string [?room=] the parameter is
    present, its value is the empty string, and the client joins "lobby",
    not the room named by the parameter. *)
Lemma empty_room_param_joins_lobby :
  URLSearchParams_get [(js "room", [])] (js "room") = Some []
  /\ roomId (App_initial [(js "room", [])]) = js "lobby"
  /\ roomId (App_initial [(js "room", [])]) <> []
  /\ (step (step (App_initial [(js "room", [])])
              (effect_socket {| socket_id := js "me" |})).1
        (socket_on {| socket_id := js "me" |} connect)).2
     = [emit_room_join (js "lobby")].
Proof. repeat split. discriminate. Qed.

(** C9, amended. If the query string has no [room] parameter, or the first
    one has an empty value, the client initializes [roomId] to "lobby" and
    on connect emits [room_join] with "lobby"; otherwise it does both with
    the first [room] parameter's value, verbatim. *)
Theorem room_param_or_lobby (params : SearchParams) (s : Socket) :
  (URLSearchParams_get params (js "room") = None
   \/ URLSearchParams_get params (js "room") = Some [] ->
   roomId (App_initial params) = js "lobby"
   /\ (step (step (App_initial params) (effect_socket s)).1
         (socket_on s connect)).2
      = [emit_room_join (js "lobby")])
  /\ (forall v,
        URLSearchParams_get params (js "room") = Some v -> v <> [] ->
        roomId (App_initial params) = v
        /\ (step (step (App_initial params) (effect_socket s)).1
              (socket_on s connect)).2
           = [emit_room_join v]).
Proof.
  rewrite connect_emits_roomId. simpl. unfold initial_roomId. split.
  - by intros [-> | ->].
  - intros [|c v] -> Hv; done.
Qed.

Lemma room_param_or_lobby_witness :
  roomId (App_initial [(js "room", js "den")]) = js "den"
  /\ roomId (App_initial [(js "mode", js "dark")]) = js "lobby".
Proof.
  split.
  - destruct (room_param_or_lobby [(js "room", js "den")]
                {| socket_id := js "me" |}) as [_ Hroom].
    apply (Hroom (js "den")); [reflexivity | discriminate].
  - destruct (room_param_or_lobby [(js "mode", js "dark")]
                {| socket_id := js "me" |}) as [Hlobby _].
    apply Hlobby. left. reflexivity.
Defined.

(** ** Spectators and the typing relay *)

Section TypingRelay.
Import Room.

(** A player's typing does reach the other members, and moves their
    typing indicator. *)
Example player_typing_relayed :
  typingProgress
    {| members := [js "a"; js "b"; js "c"]; players := [js "a"; js "b"] |}
    (js "a") 3
  = [(js "b", typing_update 3); (js "c", typing_update 3)].
Proof. reflexivity. Qed.

Example player_typing_moves_indicator :
  otherTyping
    (run (App_initial [])
       (socket_on {| socket_id := js "b" |}
        <$> inbox (js "b")
              (typingProgress
                 {| members := [js "a"; js "b"; js "c"];
                    players := [js "a"; js "b"] |} (js "a") 3))).1
  = 3%Z.
Proof. reflexivity. Qed.

Lemma spectator_typingProgress r sessionId len :
  role_of r sessionId = SPECTATOR -> typingProgress r sessionId len = [].
Proof. unfold typingProgress. by intros ->. Qed.

Lemma spectator_relay r sessionId out :
  role_of r sessionId = SPECTATOR ->
  concat (relay_typing r sessionId <$> out) = [].
Proof.
  intros Hrole. induction out as [|e out IH]; [done |].
  rewrite fmap_cons, concat_cons, IH, app_nil_r.
  destruct e; simpl; try done. by apply spectator_typingProgress.
Qed.

End TypingRelay.

Section Noninterference.
Import Room Coordinator.
Implicit Types (r : Room) (sys : System) (c o : jsstring) (a : Action).

Lemma role_of_spectator r c : role_of r c = SPECTATOR <-> c ∉ players r.
Proof. unfold role_of. case_bool_decide; split; (done || congruence). Qed.

(** Other sessions joining or leaving never make a spectator a player. *)
Lemma join_keeps_spectator r o c :
  o <> c -> c ∉ players r -> c ∉ players (join r o).1.
Proof.
  intros Hne Hc. unfold join.
  destruct (_ && _); simpl; [|done].
  rewrite elem_of_app, list_elem_of_singleton. intros [?|?]; congruence.
Qed.

Lemma leave_keeps_spectator r o c :
  c ∉ players r -> c ∉ players (leave r o).
Proof.
  intros Hc Hin. apply Hc. simpl in Hin.
  apply list_elem_of_In, List.filter_In in Hin as [Hin _].
  by apply list_elem_of_In.
Qed.

Lemma act_keeps_spectator sys a c :
  actor a <> c ->
  role_of (room sys) c = SPECTATOR ->
  role_of (room (act sys a)) c = SPECTATOR.
Proof.
  rewrite !role_of_spectator. intros Hne Hc.
  destruct a as [o params|o|o ev]; cbn [actor] in Hne; unfold act;
    destruct (clients sys !! o); cbn [room]; try done.
  - pose proof (join_keeps_spectator (room sys) o c Hne Hc) as Hjoin.
    by destruct (join (room sys) o).
  - by apply leave_keeps_spectator.
Qed.

(** Delivering an event keeps the clients other than [c] in step. *)
Lemma receive_agree c (cs1 cs2 : gmap jsstring State) d :
  (forall o, o <> c -> cs1 !! o = cs2 !! o) ->
  forall o, o <> c -> receive cs1 d !! o = receive cs2 d !! o.
Proof.
  intros Hcs o Ho. unfold receive.
  destruct (decide (d.1 = c)) as [Hd|Hd].
  - rewrite Hd.
    destruct (cs1 !! c), (cs2 !! c); rewrite ?lookup_insert_ne by done;
      by apply Hcs.
  - rewrite <- (Hcs (d.1) Hd).
    destruct (cs1 !! d.1) as [st|]; [|by apply Hcs].
    destruct (decide (d.1 = o)) as [<-|Hdo].
    + by rewrite !lookup_insert_eq.
    + rewrite !lookup_insert_ne by done. by apply Hcs.
Qed.

Lemma deliveries_agree c ds :
  forall cs1 cs2 : gmap jsstring State,
    (forall o, o <> c -> cs1 !! o = cs2 !! o) ->
    forall o, o <> c ->
      foldl receive cs1 ds !! o = foldl receive cs2 ds !! o.
Proof.
  induction ds as [|d ds IH]; intros cs1 cs2 Hcs; simpl; [done |].
  apply IH. by apply receive_agree.
Qed.

Lemma insert_agree c o (st : State) (cs1 cs2 : gmap jsstring State) :
  (forall o', o' <> c -> cs1 !! o' = cs2 !! o') ->
  forall o', o' <> c -> <[o := st]> cs1 !! o' = <[o := st]> cs2 !! o'.
Proof.
  intros Hcs o' Ho'. destruct (decide (o = o')) as [->|Hne].
  - by rewrite !lookup_insert_eq.
  - rewrite !lookup_insert_ne by done. by apply Hcs.
Qed.

Lemma delete_agree c o (cs1 cs2 : gmap jsstring State) :
  (forall o', o' <> c -> cs1 !! o' = cs2 !! o') ->
  forall o', o' <> c -> delete o cs1 !! o' = delete o cs2 !! o'.
Proof.
  intros Hcs o' Ho'. destruct (decide (o = o')) as [->|Hne].
  - by rewrite !lookup_delete_eq.
  - rewrite !lookup_delete_ne by done. by apply Hcs.
Qed.

(** What another session does has the same effect on the room and on the
    clients other than [c], whatever the client of [c] holds. *)
Lemma act_agree c sys1 sys2 a :
  actor a <> c ->
  agree_but c sys1 sys2 -> agree_but c (act sys1 a) (act sys2 a).
Proof.
  intros Hne [Hroom Hcs].
  destruct a as [o params|o|o ev]; cbn [actor] in Hne; unfold act;
    rewrite <- (Hcs o Hne), <- Hroom;
    destruct (clients sys1 !! o) as [st|]; try by split.
  - destruct (join (room sys1) o) as [after ro].
    split; cbn [room clients]; [done |].
    by apply deliveries_agree, insert_agree.
  - split; cbn [room clients]; [done |].
    by apply deliveries_agree, delete_agree.
  - split; cbn [room clients]; [done |].
    by apply deliveries_agree, insert_agree.
Qed.

(** What happens at a spectator's client reaches nobody as a typing
    update: the room and the other clients are as before. *)
Lemma act_spectator_client c sys ev :
  role_of (room sys) c = SPECTATOR ->
  agree_but c (act sys (client_event c ev)) sys.
Proof.
  intros Hrole. unfold act.
  destruct (clients sys !! c) as [st|]; [|by split].
  split; cbn [room clients]; [done |]. intros o Ho.
  rewrite (spectator_relay (room sys) c _ Hrole). cbn [foldl].
  by rewrite lookup_insert_ne.
Qed.

Lemma agree_but_trans c sys1 sys2 sys3 :
  agree_but c sys1 sys2 -> agree_but c sys2 sys3 -> agree_but c sys1 sys3.
Proof.
  intros [Hr12 Hc12] [Hr23 Hc23]. split; [congruence |].
  intros o Ho. by rewrite Hc12, Hc23.
Qed.

Lemma typing_input_actor c a : typing_input_of c a = true -> actor a = c.
Proof.
  destruct a as [| |o []]; try done. simpl. unfold str_eq.
  by intros ?%bool_decide_eq_true.
Qed.

Lemma spectator_typing_erased c tr :
  forall sys1 sys2,
    role_of (room sys1) c = SPECTATOR ->
    agree_but c sys1 sys2 ->
    Forall (fun a => actor a = c -> typing_input_of c a = true) tr ->
    agree_but c (foldl act sys1 tr)
      (foldl act sys2 (List.filter (fun a => negb (typing_input_of c a)) tr)).
Proof.
  induction tr as [|a tr IH]; intros sys1 sys2 Hrole Hagree Htr; [done |].
  apply Forall_cons in Htr as [Ha Htr]. simpl.
  destruct (typing_input_of c a) eqn:Htyp; simpl.
  - destruct a as [| |o ev]; try done.
    pose proof (typing_input_actor c _ Htyp) as Hactor. simpl in Hactor.
    subst o.
    pose proof (act_spectator_client c sys1 ev Hrole) as Hsame.
    apply IH; [|by eapply agree_but_trans|done].
    destruct Hsame as [Hroom _]. by rewrite Hroom.
  - assert (actor a <> c) as Hne
      by (intros Hc; specialize (Ha Hc); congruence).
    apply IH; [by apply act_keeps_spectator|by apply act_agree|done].
Qed.

End Noninterference.

(** C7. A spectator never affects typing indicators. Take a room in which
    session [c] is a spectator, and any course of events in which the
    other sessions connect, disconnect, type, submit and receive as they
    like while [c] produces typing inputs. Erasing all the typing inputs
    of [c] from that course leaves the room, and the state of every other
    participant's client, its typing indicator included, exactly the
    same: no typing update originating from [c] is seen by anyone. *)
Theorem spectator_typing_noninterference (sys : Coordinator.System)
    (c : jsstring) (tr : list Coordinator.Action) :
  Room.role_of (Coordinator.room sys) c = Room.SPECTATOR ->
  Forall (fun a => Coordinator.actor a = c ->
                   Coordinator.typing_input_of c a = true) tr ->
  Coordinator.room (foldl Coordinator.act sys tr)
  = Coordinator.room
      (foldl Coordinator.act sys
         (List.filter (fun a => negb (Coordinator.typing_input_of c a)) tr))
  /\ (forall o, o <> c ->
        Coordinator.clients (foldl Coordinator.act sys tr) !! o
        = Coordinator.clients
            (foldl Coordinator.act sys
               (List.filter
                  (fun a => negb (Coordinator.typing_input_of c a)) tr))
          !! o)
  /\ (forall o, o <> c ->
        render_typing
        <$> Coordinator.clients (foldl Coordinator.act sys tr) !! o
        = render_typing
          <$> Coordinator.clients
                (foldl Coordinator.act sys
                   (List.filter
                      (fun a => negb (Coordinator.typing_input_of c a)) tr))
              !! o).
Proof.
  intros Hrole Htr.
  destruct (spectator_typing_erased c tr sys sys Hrole) as [Hroom Hcs];
    [by split | done |].
  split; [done |]. split; [done |].
  intros o Ho. by rewrite Hcs.
Qed.

Lemma spectator_typing_noninterference_witness :
  Coordinator.clients
    (foldl Coordinator.act
       (foldl Coordinator.act
          {| Coordinator.room := {| Room.members := []; Room.players := [] |};
             Coordinator.clients := ∅ |}
          [Coordinator.connects (js "a") []; Coordinator.connects (js "b") [];
           Coordinator.connects (js "c") []])
       [Coordinator.client_event (js "c") (input_onChange (js "h"));
        Coordinator.client_event (js "a") (input_onChange (js "cr"));
        Coordinator.client_event (js "c") (input_onChange (js "he"))])
  !! js "b"
  = Coordinator.clients
      (foldl Coordinator.act
         (foldl Coordinator.act
            {| Coordinator.room := {| Room.members := []; Room.players := [] |};
               Coordinator.clients := ∅ |}
            [Coordinator.connects (js "a") []; Coordinator.connects (js "b") [];
             Coordinator.connects (js "c") []])
         [Coordinator.client_event (js "a") (input_onChange (js "cr"))])
    !! js "b".
Proof.
  destruct (spectator_typing_noninterference
    (foldl Coordinator.act
       {| Coordinator.room := {| Room.members := []; Room.players := [] |};
          Coordinator.clients := ∅ |}
       [Coordinator.connects (js "a") []; Coordinator.connects (js "b") [];
        Coordinator.connects (js "c") []])
    (js "c")
    [Coordinator.client_event (js "c") (input_onChange (js "h"));
     Coordinator.client_event (js "a") (input_onChange (js "cr"));
     Coordinator.client_event (js "c") (input_onChange (js "he"))])
    as (_ & Hclients & _).
  - reflexivity.
  - repeat constructor; intros Hactor; try reflexivity;
      vm_compute in Hactor; discriminate.
  - apply (Hclients (js "b")). vm_compute. discriminate.
Defined.

Section RoomExamples.
Import Room Coordinator.

(** The events the coordinator delivers make the receiving client emit
    nothing on its socket; at most the status timer is armed. *)
Lemma delivered_emits_nothing (st : State) (s : Socket) (e : ServerEvent) :
  match e with
  | room_hello _ | room_roster _ _ | room_opponent_joined
  | typing_update _ => True
  | _ => False
  end ->
  (step st (socket_on s e)).2 = []
  \/ (step st (socket_on s e)).2 = [setTimeout_clear_status 1500].
Proof.
  destruct e; try done; intros _; unfold step; simpl; unfold str_eq;
    rewrite bool_decide_eq_true_2 by done; simpl; auto.
Qed.

(** Three sessions connect to an empty room: the first two are players,
    the third is a spectator, and each client is told its role and the
    roster. *)
Example three_sessions_connect :
  let sys :=
    foldl act {| room := {| members := []; players := [] |}; clients := ∅ |}
      [connects (js "a") []; connects (js "b") []; connects (js "c") []] in
  players (room sys) = [js "a"; js "b"]
  /\ members (room sys) = [js "a"; js "b"; js "c"]
  /\ isPlayer <$> clients sys !! js "a" = Some true
  /\ isPlayer <$> clients sys !! js "c" = Some false
  /\ opponentJoined <$> clients sys !! js "a" = Some true
  /\ spectators <$> clients sys !! js "b" = Some 1%Z.
Proof. vm_compute. repeat split. Qed.

(** A player's typing moves the indicator of every other participant; the
    same input typed by the spectator moves none. *)
Example player_typing_is_seen :
  let sys :=
    foldl act {| room := {| members := []; players := [] |}; clients := ∅ |}
      [connects (js "a") []; connects (js "b") []; connects (js "c") []] in
  otherTyping
  <$> clients (act sys (client_event (js "a") (input_onChange (js "cr"))))
      !! js "b" = Some 2%Z
  /\ otherTyping
     <$> clients (act sys (client_event (js "a") (input_onChange (js "cr"))))
         !! js "c" = Some 2%Z
  /\ otherTyping
     <$> clients (act sys (client_event (js "c") (input_onChange (js "cr"))))
         !! js "b" = Some 0%Z.
Proof. vm_compute. repeat split. Qed.

End RoomExamples.

(** * Further properties of the client *)

(** ** [Row] and [Cell] *)

Section RowFacts.
Implicit Types (guess : jsstring) (feedback : list jsstring).

(** The null padding of [Row] is what an index past the end of the
    feedback reads anyway. *)
Lemma pad_feedback_lookup feedback i :
  mjoin (pad_feedback feedback !! i) = feedback !! i.
Proof.
  unfold pad_feedback.
  destruct (decide (i < length feedback)%nat) as [Hlt|Hge].
  - rewrite lookup_app_l by (by rewrite length_fmap).
    rewrite list_lookup_fmap.
    destruct (lookup_lt_is_Some_2 feedback i Hlt) as [f ->]. done.
  - rewrite (lookup_ge_None_2 feedback) by lia.
    rewrite lookup_app_r by (rewrite length_fmap; lia).
    destruct (replicate _ _ !! _) as [o|] eqn:Hrep; [|done].
    by apply lookup_replicate in Hrep as [-> _].
Qed.

Lemma trim_unit c : JS.trim [c] = if JS.is_space c then [] else [c].
Proof.
  unfold JS.trim. simpl. destruct (JS.is_space c) eqn:Hc; simpl; [done |].
  by rewrite Hc.
Qed.

Lemma padEnd_length n guess :
  length (JS.padEnd n guess) = Nat.max n (length guess).
Proof. unfold JS.padEnd. rewrite length_app, length_replicate. lia. Qed.

Lemma Row_lookup guess feedback i :
  Row guess feedback !! i
  = (fun c => Cell (feedback !! i) (if JS.is_space c then [] else [c]))
      <$> JS.padEnd WORD_LEN guess !! i.
Proof.
  unfold Row, JS.split_units.
  rewrite list_lookup_imap, list_lookup_fmap.
  destruct (JS.padEnd WORD_LEN guess !! i) as [c|]; [|done]. simpl.
  by rewrite pad_feedback_lookup, trim_unit.
Qed.

End RowFacts.

(** X1. [Row] draws one cell per code unit of the guess and never fewer
    than WORD_LEN: an empty or short guess still gives WORD_LEN cells. *)
Theorem Row_length (guess : jsstring) (feedback : list jsstring) :
  length (Row guess feedback) = Nat.max WORD_LEN (length guess).
Proof.
  unfold Row, JS.split_units.
  by rewrite length_imap, length_fmap, padEnd_length.
Qed.

(** X2. Cell [i] of a row takes its colour from [feedback[i]], which is
    undefined past the end of the feedback, and its letter from the guess
    padded with spaces; a whitespace code unit is drawn as no letter. *)
Theorem Row_cell (guess : jsstring) (feedback : list jsstring) (i : nat) :
  Row guess feedback !! i
  = (fun c => Cell (feedback !! i) (if JS.is_space c then [] else [c]))
      <$> (guess ++ replicate (WORD_LEN - length guess) 32) !! i.
Proof. apply Row_lookup. Qed.

(** X3. Feedback entries beyond the cells of the row are never drawn. *)
Theorem Row_feedback_beyond (guess : jsstring)
    (feedback extra : list jsstring) :
  (Nat.max WORD_LEN (length guess) <= length feedback)%nat ->
  Row guess (feedback ++ extra) = Row guess feedback.
Proof.
  intros Hlen. apply list_eq. intros i. rewrite !Row_lookup.
  destruct (JS.padEnd WORD_LEN guess !! i) as [c|] eqn:Hi; [|done].
  apply lookup_lt_Some in Hi. rewrite padEnd_length in Hi.
  by rewrite lookup_app_l by lia.
Qed.

Lemma Row_feedback_beyond_witness :
  Row (js "crane") [js "g"; js "b"; js "y"; js "b"; js "b"; js "g"]
  = Row (js "crane") [js "g"; js "b"; js "y"; js "b"; js "b"].
Proof.
  apply (Row_feedback_beyond (js "crane")
           [js "g"; js "b"; js "y"; js "b"; js "b"] [js "g"]).
  vm_compute. lia.
Defined.

(** X4. A cell without feedback (the row is empty, or the feedback is
    shorter than the row) has the colour of an empty cell, whatever the
    guess. *)
Theorem Row_missing_feedback (guess : jsstring) (feedback : list jsstring)
    (i : nat) (cell : CellView) :
  (length feedback <= i)%nat ->
  Row guess feedback !! i = Some cell ->
  cls cell = js "bg-slate-800".
Proof.
  intros Hge. rewrite Row_lookup, (lookup_ge_None_2 feedback) by done.
  destruct (JS.padEnd WORD_LEN guess !! i) as [c|]; [|done].
  by intros [= <-].
Qed.

Lemma Row_missing_feedback_witness :
  cls {| cls := js "bg-slate-800"; letter := js "n" |} = js "bg-slate-800".
Proof.
  apply (Row_missing_feedback (js "crane") [js "g"; js "b"] 3%nat);
    [vm_compute; lia | reflexivity].
Defined.

(** ** The guess field *)

Section InputField.
Implicit Types (w v : jsstring) (c : N).

Lemma lower_is_letter c : JS.is_lower c = true -> JS.is_letter c = true.
Proof. unfold JS.is_letter. by intros ->. Qed.

Lemma lower_not_upper c : JS.is_lower c = true -> JS.is_upper c = false.
Proof.
  unfold JS.is_lower, JS.is_upper.
  intros [Hlo%N.leb_le Hhi%N.leb_le]%andb_true_iff.
  apply andb_false_iff. right. apply N.leb_gt. lia.
Qed.

Lemma upper_unit_lower c :
  JS.is_lower c = true ->
  JS.is_upper (JS.upper_unit c) = true
  /\ JS.lower_unit (JS.upper_unit c) = c.
Proof.
  intros Hc. unfold JS.upper_unit. rewrite Hc.
  unfold JS.is_lower in Hc.
  apply andb_true_iff in Hc as [Hlo%N.leb_le Hhi%N.leb_le].
  assert (JS.is_upper (c - 32) = true) as Hup.
  { unfold JS.is_upper. apply andb_true_iff. split; apply N.leb_le; lia. }
  split; [done |]. unfold JS.lower_unit. rewrite Hup. lia.
Qed.

Lemma filter_letters_id v :
  Forall (fun c => JS.is_letter c = true) v ->
  JS.replace_non_letters v = v.
Proof.
  induction 1 as [|c v Hc _ IH]; simpl; [done |]. by rewrite Hc, IH.
Qed.

Lemma lowercase_toLowerCase w : lowercase_word w -> JS.toLowerCase w = w.
Proof.
  induction 1 as [|c w Hc _ IH]; [done |].
  unfold JS.toLowerCase in *. rewrite fmap_cons, IH.
  unfold JS.lower_unit. by rewrite (lower_not_upper c Hc).
Qed.

Lemma sanitize_lowercase w :
  lowercase_word w -> (length w <= WORD_LEN)%nat -> sanitize w = w.
Proof.
  intros Hw Hlen. unfold sanitize, JS.slice0.
  rewrite filter_letters_id
    by (eapply Forall_impl; [exact Hw | apply lower_is_letter]).
  rewrite take_ge by done. by apply lowercase_toLowerCase.
Qed.

Lemma toUpperCase_letters w :
  lowercase_word w ->
  Forall (fun c => JS.is_letter c = true) (JS.toUpperCase w)
  /\ JS.toLowerCase (JS.toUpperCase w) = w.
Proof.
  induction 1 as [|c w Hc _ [IH1 IH2]]; [by split |].
  destruct (upper_unit_lower c Hc) as [Hup Hback].
  unfold JS.toUpperCase, JS.toLowerCase in *. rewrite !fmap_cons. split.
  - constructor; [|done]. unfold JS.is_letter. rewrite Hup.
    apply orb_true_r.
  - by rewrite Hback, IH2.
Qed.

Lemma toLowerCase_app v1 v2 :
  JS.toLowerCase (v1 ++ v2) = JS.toLowerCase v1 ++ JS.toLowerCase v2.
Proof. apply fmap_app. Qed.

End InputField.

(** X5. The filter of the guess field is idempotent, and leaves a word of
    at most WORD_LEN lowercase letters as it is. *)
Theorem sanitize_idempotent (value : jsstring) :
  sanitize (sanitize value) = sanitize value
  /\ (forall w, lowercase_word w -> (length w <= WORD_LEN)%nat ->
        sanitize w = w).
Proof.
  split.
  - destruct (sanitize_ok value) as [Hlow Hlen]. by apply sanitize_lowercase.
  - apply sanitize_lowercase.
Qed.

Lemma sanitize_idempotent_witness : sanitize (js "allot") = js "allot".
Proof.
  destruct (sanitize_idempotent []) as [_ Hfix].
  apply (Hfix (js "allot")); [|vm_compute; lia].
  repeat constructor.
Defined.

(** X6. The field shows the input upper-cased, and reading the shown value
    back through the filter gives the input again: in every reachable
    state an [onChange] with the displayed value changes nothing. *)
Theorem input_value_round_trip (params : SearchParams) (st : State) :
  reachable params st ->
  sanitize (input_value st) = input st
  /\ step st (input_onChange (input_value st)) = (st, []).
Proof.
  intros [Hlow Hlen]%reachable_input_ok.
  assert (sanitize (input_value st) = input st) as Hback.
  { unfold input_value, sanitize, JS.slice0.
    destruct (toUpperCase_letters _ Hlow) as [Hlet Hlower].
    rewrite filter_letters_id by done.
    rewrite take_ge by (unfold JS.toUpperCase; by rewrite length_fmap).
    done. }
  split; [done |].
  unfold step. simpl. rewrite Hback. unfold str_eq.
  rewrite bool_decide_eq_true_2 by done. simpl.
  by destruct st.
Qed.

Lemma input_value_round_trip_witness :
  sanitize
    (input_value
       (run (App_initial []) [input_onChange (js "Al-lot")]).1)
  = js "allot".
Proof.
  apply (input_value_round_trip []
           (run (App_initial []) [input_onChange (js "Al-lot")]).1).
  apply reachable_run, reachable_initial.
Defined.

(** X7. One more character typed at the end of the field: a letter is
    appended lower-cased while the field holds fewer than WORD_LEN
    letters; any other character, and any character typed into a full
    field, is dropped. *)
Theorem input_keystroke (params : SearchParams) (st : State) (c : N) :
  reachable params st ->
  input (step st (input_onChange (input_value st ++ [c]))).1
  = if JS.is_letter c && (length (input st) <? WORD_LEN)%nat
    then input st ++ [JS.lower_unit c]
    else input st.
Proof.
  intros [Hlow Hlen]%reachable_input_ok.
  rewrite step_state. simpl.
  destruct (toUpperCase_letters _ Hlow) as [Hlet Hlower].
  unfold sanitize, JS.slice0, JS.replace_non_letters, input_value.
  rewrite List.filter_app. fold (JS.replace_non_letters (JS.toUpperCase (input st))).
  rewrite filter_letters_id by done.
  assert (length (JS.toUpperCase (input st)) = length (input st)) as Hl
    by (unfold JS.toUpperCase; by rewrite length_fmap).
  simpl. destruct (JS.is_letter c); simpl.
  - destruct (Nat.ltb_spec (length (input st)) WORD_LEN) as [Hlt|Hge].
    + rewrite take_ge by (rewrite length_app; simpl; lia).
      by rewrite toLowerCase_app, Hlower.
    + rewrite take_app_le by lia. rewrite take_ge by lia. done.
  - rewrite app_nil_r, take_ge by lia. done.
Qed.

Lemma input_keystroke_witness :
  input
    (step (run (App_initial []) [input_onChange (js "all")]).1
       (input_onChange
          (input_value (run (App_initial []) [input_onChange (js "all")]).1
           ++ [79]))).1
  = js "allo".
Proof.
  apply (input_keystroke []
           (run (App_initial []) [input_onChange (js "all")]).1 79).
  apply reachable_run, reachable_initial.
Defined.

(** ** Submitting a guess *)

Lemma player_submit_step (st : State) (s : Socket) :
  socket st = Some s -> isPlayer st = true ->
  length (input st) = WORD_LEN ->
  step st form_onSubmit
  = (setInput [] st, [emit_guess (input st); emit_typing 0]).
Proof.
  intros Hs Hp Hlen.
  unfold step. simpl. unfold submitGuess. rewrite Hs, Hp.
  apply Nat.eqb_eq in Hlen as Hlenb. rewrite Hlenb. simpl.
  unfold str_eq. rewrite bool_decide_eq_false_2; [by rewrite Hs |].
  intros Hnil. by rewrite Hnil in Hlen.
Qed.

(** X8. A player submitting WORD_LEN letters emits the guess, then, the
    field being cleared, a typing update of length 0; nothing else of the
    state changes, and submitting again emits nothing. *)
Theorem submit_clears_field (st : State) (s : Socket) :
  socket st = Some s -> isPlayer st = true ->
  length (input st) = WORD_LEN ->
  step st form_onSubmit
  = (setInput [] st, [emit_guess (input st); emit_typing 0])
  /\ step (step st form_onSubmit).1 form_onSubmit
     = ((step st form_onSubmit).1, []).
Proof.
  intros Hs Hp Hlen.
  assert (step st form_onSubmit
          = (setInput [] st, [emit_guess (input st); emit_typing 0])) as Hstep.
  { unfold step. simpl. unfold submitGuess. rewrite Hs, Hp.
    apply Nat.eqb_eq in Hlen as Hlenb. rewrite Hlenb. simpl.
    unfold str_eq. rewrite bool_decide_eq_false_2; [by rewrite Hs |].
    intros Hnil. by rewrite Hnil in Hlen. }
  split; [done |].
  rewrite Hstep. unfold step. simpl. unfold submitGuess. simpl.
  rewrite Hs, Hp. reflexivity.
Qed.

Lemma submit_clears_field_witness :
  (step (run (App_initial [])
           [effect_socket {| socket_id := js "me" |};
            socket_on {| socket_id := js "me" |} (room_hello true);
            input_onChange (js "crane")]).1 form_onSubmit).2
  = [emit_guess (js "crane"); emit_typing 0].
Proof.
  destruct (submit_clears_field
    (run (App_initial [])
       [effect_socket {| socket_id := js "me" |};
        socket_on {| socket_id := js "me" |} (room_hello true);
        input_onChange (js "crane")]).1 {| socket_id := js "me" |}
    eq_refl eq_refl eq_refl) as [Hstep _].
  by rewrite Hstep.
Defined.

(** X9. A submit that is not honoured (no socket yet, the client is no
    player, or the Guess button is disabled because the field does not
    hold WORD_LEN letters) emits nothing and keeps the state, the typed
    letters included. *)
Theorem submit_rejected_locally (st : State) :
  socket st = None \/ isPlayer st = false \/ guess_disabled st = true ->
  step st form_onSubmit = (st, []).
Proof.
  intros Hguard.
  assert (forall (sock : option Socket) (out : list Effect),
            (st, out ++ (if negb (str_eq (input st) (input st))
                         then typing_effect sock (input st) else []))
            = (st, out)) as Hsame.
  { intros sock out. unfold str_eq. rewrite bool_decide_eq_true_2 by done.
    simpl. by rewrite app_nil_r. }
  unfold step. simpl. unfold submitGuess, guess_disabled in *.
  destruct (socket st) as [s|]; [|apply Hsame].
  destruct Hguard as [Hs | [Hp | Hd]]; [done | |].
  - rewrite Hp. apply Hsame.
  - rewrite Hd, orb_true_r. apply Hsame.
Qed.

Lemma submit_rejected_locally_witness :
  step (run (App_initial [])
          [effect_socket {| socket_id := js "me" |};
           input_onChange (js "crane")]).1 form_onSubmit
  = ((run (App_initial [])
        [effect_socket {| socket_id := js "me" |};
         input_onChange (js "crane")]).1, []).
Proof.
  apply submit_rejected_locally. right. left. reflexivity.
Defined.

Section Roles.
Implicit Types (st : State) (ev : Event).

Lemma step_isPlayer st ev :
  grants_player ev = false -> isPlayer st = false ->
  isPlayer (step st ev).1 = false.
Proof.
  rewrite step_state. intros Hev Hp.
  destruct ev as [?|? [|[]| | | | | | |]| |? ?|?| |]; simpl in *;
    try done;
    unfold submitGuess, guess_result_handler, room_finished_handler,
      room_finished_handler_with;
    repeat case_match; simpl; done.
Qed.

Lemma run_cons st ev evs :
  run st (ev :: evs)
  = ((run (step st ev).1 evs).1, (step st ev).2 ++ (run (step st ev).1 evs).2).
Proof.
  simpl. destruct (step st ev) as [st1 out1]. simpl.
  by destruct (run st1 evs) as [st2 out2].
Qed.

End Roles.

(** X10. A client that is no player stays none, and emits no [guess],
    through every sequence of events in which the server does not send a
    [room:hello] naming it a player: typing, submitting, guess results,
    resets and roster updates never change the role. *)
Theorem spectator_never_guesses (st : State) (evs : list Event) :
  isPlayer st = false ->
  Forall (fun ev => grants_player ev = false) evs ->
  isPlayer (run st evs).1 = false
  /\ guess_payloads (run st evs).2 = [].
Proof.
  intros Hp Hevs. revert st Hp.
  induction Hevs as [|ev evs Hev _ IH]; intros st Hp; [done |].
  rewrite run_cons. simpl.
  destruct (IH (step st ev).1 (step_isPlayer st ev Hev Hp)) as [IHp IHg].
  split; [done |].
  rewrite guess_payloads_app, IHg, app_nil_r, step_guess_payloads.
  destruct ev; try done. by rewrite Hp, andb_false_r.
Qed.

Lemma spectator_never_guesses_witness :
  guess_payloads
    (run (App_initial [])
       [effect_socket {| socket_id := js "c" |};
        socket_on {| socket_id := js "c" |} (room_hello false);
        input_onChange (js "crane"); form_onSubmit]).2
  = [].
Proof.
  apply (spectator_never_guesses (App_initial [])
           [effect_socket {| socket_id := js "c" |};
            socket_on {| socket_id := js "c" |} (room_hello false);
            input_onChange (js "crane"); form_onSubmit]);
    [reflexivity | repeat constructor].
Defined.

(** X11. The ref [isPlayerRef] always mirrors the state [isPlayer]; so
    after a [room:roster] the opponent badge reads "joined" exactly when
    the client is a player and the roster counts at least two players. *)
Theorem isPlayerRef_mirrors_state (params : SearchParams) (st : State) :
  reachable params st ->
  isPlayerRef st = isPlayer st
  /\ (forall s numPlayers numSpectators,
        opponentJoined
          (step st (socket_on s (room_roster numPlayers numSpectators))).1
        = isPlayer st && (2 <=? numPlayers)%Z).
Proof.
  intros Hreach.
  assert (isPlayerRef st = isPlayer st) as Href.
  { induction Hreach as [|st ev _ IH]; [done |].
    rewrite step_state. handler_cases st ev; done. }
  split; [done |]. intros s np ns. rewrite step_state. simpl. by rewrite Href.
Qed.

Lemma isPlayerRef_mirrors_state_witness :
  opponentJoined
    (step (run (App_initial [])
             [effect_socket {| socket_id := js "c" |};
              socket_on {| socket_id := js "c" |} (room_hello false)]).1
       (socket_on {| socket_id := js "c" |} (room_roster 2 1))).1
  = false.
Proof.
  destruct (isPlayerRef_mirrors_state []
    (run (App_initial [])
       [effect_socket {| socket_id := js "c" |};
        socket_on {| socket_id := js "c" |} (room_hello false)]).1
    (reachable_run [] _ _ (reachable_initial []))) as [_ Hroster].
  by rewrite Hroster.
Defined.

(** ** The boards *)

Section BoardFacts.
Implicit Types (st : State) (ev : Event).

Lemma emptyBoard_length : length emptyBoard = MAX_GUESSES.
Proof. reflexivity. Qed.

Lemma handle_board_lengths st ev :
  length (board (handle st ev).1) = length (board st)
  /\ length (otherBoard (handle st ev).1) = length (otherBoard st)
  \/ board (handle st ev).1 = emptyBoard
     /\ otherBoard (handle st ev).1 = emptyBoard.
Proof.
  handler_cases st ev; rewrite ?replace_row_length; auto.
Qed.

Lemma reachable_board_lengths params st :
  reachable params st ->
  length (board st) = MAX_GUESSES /\ length (otherBoard st) = MAX_GUESSES.
Proof.
  induction 1 as [|st ev _ [IH1 IH2]]; [done |].
  rewrite step_state.
  destruct (handle_board_lengths st ev) as [[-> ->] | [-> ->]]; done.
Qed.

(** Replacing a row twice keeps the later entry; replacing two different
    rows can be done in either order. *)
Lemma replace_row_twice row e1 e2 prev :
  replace_row row e2 (replace_row row e1 prev) = replace_row row e2 prev.
Proof.
  apply list_eq. intros i. rewrite !replace_row_lookup.
  destruct (prev !! i) as [r|]; [|done]. simpl.
  by destruct (Z.of_nat i =? row)%Z.
Qed.

Lemma replace_row_commute row1 row2 e1 e2 prev :
  row1 <> row2 ->
  replace_row row2 e2 (replace_row row1 e1 prev)
  = replace_row row1 e1 (replace_row row2 e2 prev).
Proof.
  intros Hne. apply list_eq. intros i. rewrite !replace_row_lookup.
  destruct (prev !! i) as [r|]; [|done]. simpl.
  destruct (Z.eqb_spec (Z.of_nat i) row1), (Z.eqb_spec (Z.of_nat i) row2);
    (done || lia).
Qed.

End BoardFacts.

(** X12. Both boards have exactly MAX_GUESSES rows in every state the
    client can reach, and so do the two rendered boards: no event adds or
    removes a row. *)
Theorem boards_keep_MAX_GUESSES_rows (params : SearchParams) (st : State) :
  reachable params st ->
  length (board st) = MAX_GUESSES
  /\ length (otherBoard st) = MAX_GUESSES
  /\ length (render_board st) = MAX_GUESSES
  /\ length (render_otherBoard st) = MAX_GUESSES.
Proof.
  intros [Hb Ho]%reachable_board_lengths.
  unfold render_board, render_otherBoard. by rewrite !length_fmap.
Qed.

Lemma boards_keep_MAX_GUESSES_rows_witness :
  length
    (board
       (run (App_initial [])
          [socket_on {| socket_id := js "me" |}
             (guess_result
                {| sid := js "me"; row := 9; result_guess := js "crane";
                   feedback := []; winnerSid := None |})]).1)
  = MAX_GUESSES.
Proof.
  apply (boards_keep_MAX_GUESSES_rows []).
  apply reachable_run, reachable_initial.
Defined.

(** X13. A [guess:result] whose [row] is no index of the board (negative,
    or MAX_GUESSES and more) changes neither board: nothing is appended
    and nothing is overwritten. *)
Theorem guess_result_row_out_of_range (params : SearchParams) (st : State)
    (s : Socket) (p : GuessResult) :
  reachable params st ->
  (row p < 0 \/ Z.of_nat MAX_GUESSES <= row p)%Z ->
  board (step st (socket_on s (guess_result p))).1 = board st
  /\ otherBoard (step st (socket_on s (guess_result p))).1 = otherBoard st.
Proof.
  intros [Hb Ho]%reachable_board_lengths Hrow.
  rewrite step_socket_on. simpl.
  destruct (decide (sid p = socket_id s)) as [Hsid|Hsid].
  - destruct (guess_result_mine s p st Hsid) as (-> & -> & _).
    split; [|done]. apply replace_row_out_of_range. rewrite Hb. lia.
  - destruct (guess_result_theirs s p st Hsid) as (-> & -> & _).
    split; [done |]. apply replace_row_out_of_range. rewrite Ho. lia.
Qed.

Lemma guess_result_row_out_of_range_witness :
  board
    (step (App_initial [])
       (socket_on {| socket_id := js "me" |}
          (guess_result
             {| sid := js "me"; row := 6; result_guess := js "crane";
                feedback := [js "g"]; winnerSid := None |}))).1
  = emptyBoard.
Proof.
  apply (guess_result_row_out_of_range [] (App_initial [])
           {| socket_id := js "me" |}
           {| sid := js "me"; row := 6; result_guess := js "crane";
              feedback := [js "g"]; winnerSid := None |});
    [apply reachable_initial | right; vm_compute; discriminate].
Defined.

(** X14. Two [guess:result] events of the same session for the same row:
    the later one decides the row; for two different rows the order of
    arrival does not matter for the boards. *)
Theorem guess_result_last_wins (st : State) (s : Socket)
    (p1 p2 : GuessResult) :
  sid p1 = sid p2 ->
  let after evs := (run st (socket_on s <$> evs)).1 in
  (row p1 = row p2 ->
   board (after [guess_result p1; guess_result p2])
   = board (after [guess_result p2])
   /\ otherBoard (after [guess_result p1; guess_result p2])
      = otherBoard (after [guess_result p2]))
  /\ (row p1 <> row p2 ->
      board (after [guess_result p1; guess_result p2])
      = board (after [guess_result p2; guess_result p1])
      /\ otherBoard (after [guess_result p1; guess_result p2])
         = otherBoard (after [guess_result p2; guess_result p1])).
Proof.
  intros Hsid after. subst after. cbv beta.
  rewrite !fmap_cons, !run_cons, !step_socket_on.
  cbn [fst snd run fmap list_fmap socket_handler].
  destruct (decide (sid p1 = socket_id s)) as [H1|H1].
  - assert (sid p2 = socket_id s) as H2 by congruence.
    split; intros Hrow.
    + destruct (guess_result_mine s p2 (guess_result_handler s p1 st) H2)
        as (-> & -> & _).
      destruct (guess_result_mine s p1 st H1) as (-> & -> & _).
      destruct (guess_result_mine s p2 st H2) as (-> & -> & _).
      by rewrite Hrow, replace_row_twice.
    + destruct (guess_result_mine s p2 (guess_result_handler s p1 st) H2)
        as (-> & -> & _).
      destruct (guess_result_mine s p1 (guess_result_handler s p2 st) H1)
        as (-> & -> & _).
      destruct (guess_result_mine s p1 st H1) as (-> & -> & _).
      destruct (guess_result_mine s p2 st H2) as (-> & -> & _).
      by rewrite replace_row_commute.
  - assert (sid p2 <> socket_id s) as H2 by congruence.
    split; intros Hrow.
    + destruct (guess_result_theirs s p2 (guess_result_handler s p1 st) H2)
        as (-> & -> & _).
      destruct (guess_result_theirs s p1 st H1) as (-> & -> & _).
      destruct (guess_result_theirs s p2 st H2) as (-> & -> & _).
      by rewrite Hrow, replace_row_twice.
    + destruct (guess_result_theirs s p2 (guess_result_handler s p1 st) H2)
        as (-> & -> & _).
      destruct (guess_result_theirs s p1 (guess_result_handler s p2 st) H1)
        as (-> & -> & _).
      destruct (guess_result_theirs s p1 st H1) as (-> & -> & _).
      destruct (guess_result_theirs s p2 st H2) as (-> & -> & _).
      by rewrite replace_row_commute.
Qed.

Lemma guess_result_last_wins_witness :
  board
    (run (App_initial [])
       (socket_on {| socket_id := js "me" |}
        <$> [guess_result
               {| sid := js "me"; row := 0; result_guess := js "crane";
                  feedback := []; winnerSid := None |};
             guess_result
               {| sid := js "me"; row := 0; result_guess := js "slate";
                  feedback := []; winnerSid := None |}])).1
  = board
      (run (App_initial [])
         (socket_on {| socket_id := js "me" |}
          <$> [guess_result
                 {| sid := js "me"; row := 0; result_guess := js "slate";
                    feedback := []; winnerSid := None |}])).1.
Proof.
  destruct (guess_result_last_wins (App_initial [])
              {| socket_id := js "me" |}
              {| sid := js "me"; row := 0; result_guess := js "crane";
                 feedback := []; winnerSid := None |}
              {| sid := js "me"; row := 0; result_guess := js "slate";
                 feedback := []; winnerSid := None |} eq_refl)
    as [Hsame _].
  apply Hsame. reflexivity.
Defined.

(** X15. The own board is written by the server only: an event changes
    it only if it is a [guess:result] carrying the client's own socket
    id, or a [room:reset]. In particular typing and submitting a guess
    leave the board as it is. *)
Theorem board_changed_by_server_only (st : State) (ev : Event) :
  board (step st ev).1 <> board st ->
  (exists s p, ev = socket_on s (guess_result p) /\ sid p = socket_id s)
  \/ (exists s, ev = socket_on s room_reset).
Proof.
  rewrite step_state. intros Hne.
  destruct ev as [?|s [| | | | |p| | |]| |? ?|?| |]; simpl in *;
    try done; try (by right; eauto);
    try (unfold submitGuess, room_finished_handler, room_finished_handler_with,
           room_roster_handler in *;
         repeat case_match; simpl in *; done).
  left. exists s, p. split; [done |].
  destruct (decide (sid p = socket_id s)) as [Hsid|Hsid]; [done |].
  by destruct (guess_result_theirs s p st Hsid) as (_ & Hb & _).
Qed.

Lemma board_changed_by_server_only_witness :
  (exists s p,
      socket_on {| socket_id := js "me" |}
        (guess_result
           {| sid := js "me"; row := 0; result_guess := js "crane";
              feedback := []; winnerSid := None |})
      = socket_on s (guess_result p) /\ sid p = socket_id s)
  \/ (exists s,
        socket_on {| socket_id := js "me" |}
          (guess_result
             {| sid := js "me"; row := 0; result_guess := js "crane";
                feedback := []; winnerSid := None |})
        = socket_on s room_reset).
Proof.
  apply (board_changed_by_server_only (App_initial [])).
  vm_compute. discriminate.
Defined.

(** ** Typing progress *)

(** X16. The typing boxes of the opponent section: none while the reported
    length is zero or negative; otherwise WORD_LEN boxes of which the
    first [min length WORD_LEN] are filled, so a length above WORD_LEN
    fills them all and draws no extra box. *)
Theorem typing_boxes (st : State) :
  ((otherTyping st <= 0)%Z -> render_typing st = None)
  /\ ((0 < otherTyping st)%Z ->
      render_typing st
      = Some (replicate (Z.to_nat (Z.min (otherTyping st) 5)) true
              ++ replicate (WORD_LEN - Z.to_nat (Z.min (otherTyping st) 5))
                   false)).
Proof.
  unfold render_typing. split; intros Hn.
  - by destruct (Z.ltb_spec 0 (otherTyping st)); [lia |].
  - destruct (Z.ltb_spec 0 (otherTyping st)); [|lia]. f_equal.
    assert (otherTyping st = 1 \/ otherTyping st = 2 \/ otherTyping st = 3
            \/ otherTyping st = 4 \/ 5 <= otherTyping st)%Z
      as [-> | [-> | [-> | [-> | Hfull]]]] by lia; try reflexivity.
    rewrite Z.min_r by lia. simpl.
    repeat match goal with
      | |- context [(?a <? otherTyping st)%Z] =>
          destruct (Z.ltb_spec a (otherTyping st)); [|lia]
      end.
    reflexivity.
Qed.

Lemma typing_boxes_witness :
  render_typing
    (step (App_initial [])
       (socket_on {| socket_id := js "me" |} (typing_update 7))).1
  = Some [true; true; true; true; true].
Proof.
  destruct (typing_boxes
              (step (App_initial [])
                 (socket_on {| socket_id := js "me" |} (typing_update 7))).1)
    as [_ Hshown].
  apply Hshown. reflexivity.
Defined.

(** X17. No [typing] event without a change: an event that leaves the
    input as it was, and is neither the creation of the socket nor a
    change of the room id (which creates a new socket), emits no
    [typing]. A keystroke that the filter drops is therefore not
    reported. *)
Theorem typing_only_on_change (st : State) (ev : Event) :
  input (step st ev).1 = input st ->
  (forall s, ev <> effect_socket s) ->
  (forall v s, ev <> roomId_onChange v s) ->
  typing_payloads (step st ev).2 = [].
Proof.
  rewrite step_state, step_effects, typing_payloads_app, handle_no_typing.
  intros Hin Hev Hroom. simpl.
  destruct ev as [s|? ?| |v s|?| |]; simpl in *;
    try (by try rewrite Hin; unfold str_eq; rewrite bool_decide_eq_true_2).
  - by destruct (Hev s).
  - by destruct (Hroom v s).
Qed.

Lemma typing_only_on_change_witness :
  typing_payloads
    (step (run (App_initial [])
             [effect_socket {| socket_id := js "me" |};
              input_onChange (js "cr")]).1
       (input_onChange (js "CR7"))).2
  = [].
Proof.
  apply typing_only_on_change; [reflexivity | discriminate | discriminate].
Defined.

(** X18. The length a client reports in a [typing] event is never above
    WORD_LEN. *)
Theorem typing_length_bounded (params : SearchParams) (st : State)
    (ev : Event) (n : nat) :
  reachable params st ->
  n ∈ typing_payloads (step st ev).2 ->
  (n <= WORD_LEN)%nat.
Proof.
  intros Hreach.
  pose proof (reachable_input_ok params _ (reachable_step params st ev Hreach))
    as [_ Hlen].
  rewrite step_state in Hlen.
  rewrite step_effects, typing_payloads_app, handle_no_typing. simpl.
  destruct (typing_deps_changed _ _ _); [|by intros ?%elem_of_nil].
  destruct (socket (handle st ev).1); simpl; [|by intros ?%elem_of_nil].
  by intros ->%list_elem_of_singleton.
Qed.

Lemma typing_length_bounded_witness : (5 <= WORD_LEN)%nat.
Proof.
  apply (typing_length_bounded []
           (run (App_initial [])
              [effect_socket {| socket_id := js "me" |}]).1
           (input_onChange (js "abcdefgh")) 5%nat).
  - apply reachable_run, reachable_initial.
  - vm_compute. apply list_elem_of_here.
Defined.

(** ** Reset and room switch *)

Section Emissions.
Implicit Types (st : State) (ev : Event).

Lemma emits_reset_room_app out1 out2 :
  emits_reset_room (out1 ++ out2)
  = emits_reset_room out1 || emits_reset_room out2.
Proof. unfold emits_reset_room. apply existsb_app. Qed.

Lemma typing_effect_no_reset sock inp :
  emits_reset_room (typing_effect sock inp) = false.
Proof. by destruct sock. Qed.

Lemma room_join_payloads_app out1 out2 :
  room_join_payloads (out1 ++ out2)
  = room_join_payloads out1 ++ room_join_payloads out2.
Proof. unfold room_join_payloads. apply omap_app. Qed.

Lemma typing_effect_no_join sock inp :
  room_join_payloads (typing_effect sock inp) = [].
Proof. by destruct sock. Qed.

End Emissions.

(** X19. [reset_room] is emitted by the Reset button and by nothing else:
    once the socket exists a click emits it whether the client is a
    player or a spectator, and leaves the client's state as it is (the
    boards are cleared only when the server answers with [room:reset]). *)
Theorem reset_room_from_button_only (st : State) (ev : Event) :
  (emits_reset_room (step st ev).2 = true
   <-> ev = reset_onClick /\ socket st <> None)
  /\ step st reset_onClick
     = (st, if bool_decide (socket st <> None) then [emit_reset_room] else []).
Proof.
  split.
  - rewrite step_effects, emits_reset_room_app.
    assert (emits_reset_room
              (if typing_deps_changed ev st (handle st ev).1
               then typing_effect (socket (handle st ev).1)
                      (input (handle st ev).1)
               else []) = false) as ->.
    { destruct (typing_deps_changed _ _ _);
        [apply typing_effect_no_reset | done]. }
    rewrite orb_false_r.
    destruct ev as [?|? []| |? ?|?| |]; simpl;
      unfold submitGuess, handleReset; repeat case_match; simpl;
      split; try done; try (by intros [? ?]).
  - unfold step. simpl. unfold str_eq, handleReset.
    rewrite bool_decide_eq_true_2 by done. simpl. rewrite app_nil_r.
    by destruct (socket st).
Qed.

(** X20. [room_join] is emitted by the [connect] handler only, with the
    room id the client currently holds; after the Room ID field is
    changed to another value, the next connect joins that value. *)
Theorem room_join_current_room (st : State) (ev : Event) (s : Socket)
    (value : jsstring) :
  room_join_payloads (step st ev).2
  = match ev with
    | socket_on _ connect => [roomId st]
    | _ => []
    end
  /\ (value <> roomId st ->
      (run st [roomId_onChange value s; socket_on s connect]).2
      = [emit_typing (length (input st)); emit_room_join value]
      /\ socket (run st [roomId_onChange value s; socket_on s connect]).1
         = Some s).
Proof.
  split.
  - rewrite step_effects, room_join_payloads_app.
    assert (room_join_payloads
              (if typing_deps_changed ev st (handle st ev).1
               then typing_effect (socket (handle st ev).1)
                      (input (handle st ev).1)
               else []) = []) as ->.
    { destruct (typing_deps_changed _ _ _);
        [apply typing_effect_no_join | done]. }
    rewrite app_nil_r.
    destruct ev as [?|? []| |? ?|?| |]; simpl;
      unfold submitGuess, handleReset; repeat case_match; done.
  - intros Hne. rewrite !run_cons. simpl.
    unfold step. simpl. unfold str_eq.
    rewrite (bool_decide_eq_false_2 (value = roomId st)) by done. simpl.
    rewrite bool_decide_eq_true_2 by done. done.
Qed.

Lemma room_join_current_room_witness :
  (run (step (App_initial []) (effect_socket {| socket_id := js "s1" |})).1
     [roomId_onChange (js "den") {| socket_id := js "s2" |};
      socket_on {| socket_id := js "s2" |} connect]).2
  = [emit_typing 0; emit_room_join (js "den")].
Proof.
  destruct (room_join_current_room
              (step (App_initial []) (effect_socket {| socket_id := js "s1" |})).1
              form_onSubmit {| socket_id := js "s2" |} (js "den"))
    as [_ Hswitch].
  apply Hswitch. vm_compute. discriminate.
Defined.

(** ** From a guess result to the screen *)

Section Display.
Implicit Types (guess : jsstring) (feedback : list jsstring).

Lemma lower_not_space c : JS.is_lower c = true -> JS.is_space c = false.
Proof.
  unfold JS.is_lower.
  intros [Hlo%N.leb_le Hhi%N.leb_le]%andb_true_iff.
  apply not_true_is_false. unfold JS.is_space.
  rewrite !orb_true_iff, !andb_true_iff, !N.leb_le, !N.eqb_eq.
  lia.
Qed.

(** A full row: every cell has its letter and the colour of its mark. *)
Lemma Row_full guess feedback :
  lowercase_word guess ->
  length guess = WORD_LEN -> length feedback = WORD_LEN ->
  Row guess feedback
  = zip_with (fun c f => Cell (Some f) [c]) guess feedback.
Proof.
  intros Hlow Hg Hf. apply list_eq. intros i.
  rewrite Row_lookup, lookup_zip_with. unfold JS.padEnd.
  rewrite Hg, Nat.sub_diag, app_nil_r.
  destruct (guess !! i) as [c|] eqn:Hi; [|done]. simpl.
  assert (JS.is_space c = false) as ->.
  { apply lower_not_space.
    by apply (proj1 (Forall_lookup _ _) Hlow i c). }
  apply lookup_lt_Some in Hi.
  destruct (lookup_lt_is_Some_2 feedback i) as [f ->]; [lia | done].
Qed.

(** A row of the opponent section: colours without letters. *)
Lemma Row_hidden feedback :
  length feedback = WORD_LEN ->
  Row (js " ") feedback = (fun f => Cell (Some f) []) <$> feedback.
Proof.
  intros Hf. apply list_eq. intros i.
  rewrite Row_lookup, list_lookup_fmap.
  destruct (decide (i < WORD_LEN)%nat) as [Hlt|Hge].
  - destruct (lookup_lt_is_Some_2 feedback i) as [f Hfi]; [lia |].
    rewrite Hfi.
    destruct i as [|[|[|[|[|i]]]]]; try reflexivity.
    unfold WORD_LEN in Hlt. lia.
  - rewrite (lookup_ge_None_2 feedback) by lia.
    rewrite lookup_ge_None_2; [done |].
    rewrite padEnd_length. change (length (js " ")) with 1%nat.
    unfold WORD_LEN in *. lia.
Qed.

Lemma render_board_lookup st i :
  render_board st !! i = (fun r => Row (guess r) (fb r)) <$> board st !! i.
Proof. unfold render_board. by rewrite list_lookup_fmap. Qed.

Lemma render_otherBoard_lookup st i :
  render_otherBoard st !! i
  = (fun r => Row (js " ") (fb r)) <$> otherBoard st !! i.
Proof. unfold render_otherBoard. by rewrite list_lookup_fmap. Qed.

End Display.

(** X21. The client's own guess on the screen: after a [guess:result]
    with the client's socket id, a row index below MAX_GUESSES, a guess
    of WORD_LEN lowercase letters and WORD_LEN marks, that row under
    "You" shows each letter of the guess on the colour of its mark; the
    other rows under "You" and the opponent section are drawn as
    before. *)
Theorem own_guess_shown (params : SearchParams) (st : State) (s : Socket)
    (p : GuessResult) (n : nat) :
  reachable params st ->
  sid p = socket_id s ->
  row p = Z.of_nat n -> (n < MAX_GUESSES)%nat ->
  lowercase_word (result_guess p) ->
  length (result_guess p) = WORD_LEN -> length (feedback p) = WORD_LEN ->
  let st' := (step st (socket_on s (guess_result p))).1 in
  render_board st' !! n
  = Some (zip_with (fun c f => Cell (Some f) [c])
            (result_guess p) (feedback p))
  /\ (forall i, i <> n -> render_board st' !! i = render_board st !! i)
  /\ render_opponent st' = render_opponent st.
Proof.
  intros [Hb _]%reachable_board_lengths Hsid Hrow Hn Hlow Hg Hf st'.
  subst st'. rewrite step_socket_on. simpl.
  destruct (guess_result_mine s p st Hsid) as (Hboard & Hother & Htyping).
  split; [|split].
  - rewrite render_board_lookup, Hboard, Hrow, replace_row_insert.
    rewrite list_lookup_insert_eq by lia. simpl. by rewrite Row_full.
  - intros i Hi.
    rewrite !render_board_lookup, Hboard, Hrow, replace_row_insert.
    by rewrite list_lookup_insert_ne.
  - unfold render_opponent, render_otherBoard, render_typing.
    by rewrite Hother, Htyping.
Qed.

Lemma own_guess_shown_witness :
  render_board
    (step (App_initial [])
       (socket_on {| socket_id := js "me" |}
          (guess_result
             {| sid := js "me"; row := 0; result_guess := js "crane";
                feedback := [js "g"; js "b"; js "y"; js "b"; js "b"];
                winnerSid := None |}))).1 !! 0%nat
  = Some [ {| cls := js "bg-green-600"; letter := js "c" |};
           {| cls := js "bg-slate-700"; letter := js "r" |};
           {| cls := js "bg-yellow-600"; letter := js "a" |};
           {| cls := js "bg-slate-700"; letter := js "n" |};
           {| cls := js "bg-slate-700"; letter := js "e" |} ].
Proof.
  apply (own_guess_shown [] (App_initial []) {| socket_id := js "me" |}
           {| sid := js "me"; row := 0; result_guess := js "crane";
              feedback := [js "g"; js "b"; js "y"; js "b"; js "b"];
              winnerSid := None |} 0%nat);
    try reflexivity.
  - apply reachable_initial.
  - vm_compute. lia.
  - repeat constructor.
Defined.

(** X22. The opponent's guess on the screen: after a [guess:result] with
    another session's id, a row index below MAX_GUESSES and WORD_LEN
    marks, that row under "Opponent" shows the colours of the marks on
    cells without letters, whatever the guess was; the board under "You"
    is drawn as before. *)
Theorem opponent_guess_shown (params : SearchParams) (st : State)
    (s : Socket) (p : GuessResult) (n : nat) :
  reachable params st ->
  sid p <> socket_id s ->
  row p = Z.of_nat n -> (n < MAX_GUESSES)%nat ->
  length (feedback p) = WORD_LEN ->
  let st' := (step st (socket_on s (guess_result p))).1 in
  render_otherBoard st' !! n
  = Some ((fun f => Cell (Some f) []) <$> feedback p)
  /\ (forall i, i <> n ->
        render_otherBoard st' !! i = render_otherBoard st !! i)
  /\ render_board st' = render_board st.
Proof.
  intros [_ Ho]%reachable_board_lengths Hsid Hrow Hn Hf st'.
  subst st'. rewrite step_socket_on. simpl.
  destruct (guess_result_theirs s p st Hsid) as (Hother & Hboard & _).
  split; [|split].
  - rewrite render_otherBoard_lookup, Hother, Hrow, replace_row_insert.
    rewrite list_lookup_insert_eq by lia. simpl. by rewrite Row_hidden.
  - intros i Hi.
    rewrite !render_otherBoard_lookup, Hother, Hrow, replace_row_insert.
    by rewrite list_lookup_insert_ne.
  - unfold render_board. by rewrite Hboard.
Qed.

Lemma opponent_guess_shown_witness :
  render_otherBoard
    (step (App_initial [])
       (socket_on {| socket_id := js "me" |}
          (guess_result
             {| sid := js "them"; row := 1; result_guess := js "crane";
                feedback := [js "g"; js "b"; js "y"; js "b"; js "b"];
                winnerSid := None |}))).1 !! 1%nat
  = Some [ {| cls := js "bg-green-600"; letter := [] |};
           {| cls := js "bg-slate-700"; letter := [] |};
           {| cls := js "bg-yellow-600"; letter := [] |};
           {| cls := js "bg-slate-700"; letter := [] |};
           {| cls := js "bg-slate-700"; letter := [] |} ].
Proof.
  apply (opponent_guess_shown [] (App_initial []) {| socket_id := js "me" |}
           {| sid := js "them"; row := 1; result_guess := js "crane";
              feedback := [js "g"; js "b"; js "y"; js "b"; js "b"];
              winnerSid := None |} 1%nat);
    try reflexivity.
  - apply reachable_initial.
  - vm_compute. discriminate.
  - vm_compute. lia.
Defined.

(** ** Status messages *)

(** X23. The win notice of [guess:result]: with a [winnerSid] the status
    reads "You win!" when it is the client's own socket id and "They
    win!" for any other id, whoever made the guess; without one the
    status is left alone. The two notices differ. *)
Theorem win_notice (st : State) (s : Socket) (p : GuessResult) :
  (forall w, winnerSid p = Some w -> w <> [] ->
     status (step st (socket_on s (guess_result p))).1
     = if bool_decide (w = socket_id s) then you_win else they_win)
  /\ (winnerSid p = None ->
      status (step st (socket_on s (guess_result p))).1 = status st)
  /\ you_win <> they_win.
Proof.
  rewrite step_socket_on. simpl. unfold guess_result_handler.
  split; [|split; [|done]].
  - intros [|c w] Hw Hne; [done |]. rewrite Hw. simpl.
    destruct (str_eq (sid p) (socket_id s)); simpl;
      repeat case_bool_decide; congruence.
  - intros ->. simpl. by destruct (str_eq (sid p) (socket_id s)).
Qed.

Lemma win_notice_witness :
  status
    (step (App_initial [])
       (socket_on {| socket_id := js "me" |}
          (guess_result
             {| sid := js "them"; row := 3; result_guess := js "crane";
                feedback := [js "g"; js "g"; js "g"; js "g"; js "g"];
                winnerSid := Some (js "them") |}))).1
  = they_win.
Proof.
  destruct (win_notice (App_initial []) {| socket_id := js "me" |}
              {| sid := js "them"; row := 3; result_guess := js "crane";
                 feedback := [js "g"; js "g"; js "g"; js "g"; js "g"];
                 winnerSid := Some (js "them") |}) as [Hwin _].
  rewrite (Hwin (js "them")); [reflexivity | reflexivity | discriminate].
Defined.

(** X24. A guess the server rejects: the field was cleared at submit and
    stays empty, the reason is shown until its timer fires, and in the
    end the state is the one before the submit with the input and the
    status empty; the boards are untouched. *)
Theorem rejected_guess_round (st : State) (s : Socket) (reason : jsstring) :
  socket st = Some s -> isPlayer st = true ->
  length (input st) = WORD_LEN ->
  run st [form_onSubmit; socket_on s (guess_rejected reason)]
  = (setStatus reason (setInput [] st),
     [emit_guess (input st); emit_typing 0; setTimeout_clear_status 1200])
  /\ (run st [form_onSubmit; socket_on s (guess_rejected reason);
              timeout_clear_status]).1
     = setStatus [] (setInput [] st).
Proof.
  intros Hs Hp Hlen.
  pose proof (player_submit_step st s Hs Hp Hlen) as Hsubmit.
  rewrite !run_cons, Hsubmit. by split.
Qed.

Lemma rejected_guess_round_witness :
  status
    (run (run (App_initial [])
            [effect_socket {| socket_id := js "me" |};
             socket_on {| socket_id := js "me" |} (room_hello true);
             input_onChange (js "zzzzz")]).1
       [form_onSubmit;
        socket_on {| socket_id := js "me" |}
          (guess_rejected (js "Not a word"))]).1
  = js "Not a word".
Proof.
  destruct (rejected_guess_round
    (run (App_initial [])
       [effect_socket {| socket_id := js "me" |};
        socket_on {| socket_id := js "me" |} (room_hello true);
        input_onChange (js "zzzzz")]).1
    {| socket_id := js "me" |} (js "Not a word") eq_refl eq_refl eq_refl)
    as [Hround _].
  by rewrite Hround.
Defined.

(** X25. After [room:reset] both boards are drawn as MAX_GUESSES rows of
    WORD_LEN cells with the empty colour and no letter, as on the first
    render. *)
Theorem reset_renders_blank (params : SearchParams) (st : State)
    (s : Socket) :
  render_board (step st (socket_on s room_reset)).1
  = replicate MAX_GUESSES
      (replicate WORD_LEN {| cls := js "bg-slate-800"; letter := [] |})
  /\ render_otherBoard (step st (socket_on s room_reset)).1
     = replicate MAX_GUESSES
         (replicate WORD_LEN {| cls := js "bg-slate-800"; letter := [] |})
  /\ render_board (step st (socket_on s room_reset)).1
     = render_board (App_initial params).
Proof. rewrite step_socket_on. by vm_compute. Qed.
